(** * boston_events: the venue calendar parsers of [getvenue.py] and the
    aggregator of [get_events.py], embedded as Rocq functions.

    Conventions of the embedding.
    - A Python [str] is the list of its Unicode code points ([str := list N]);
      [u "text"] writes an ASCII literal.
    - A Python exception is a constructor of [exn]; a computation that can
      raise returns [res A] ([Ok a] or [Raise e]).
    - Decoded JSON is the inductive [json]; a JSON object keeps its members
      as an association list read from the left.  JSON numbers are integers:
      no field read by the parsers is used as a fraction.
    - What the imported packages compute (dateutil, strptime, demjson, json,
      BeautifulSoup's parser, the local time zone, the Unicode lower-case
      table) is a field of the class [Library]; the tree searches of
      BeautifulSoup and the regular expressions of the source are written
      out as functions.
    - Parsed HTML is a tree of tags and text nodes; comments and other
      special strings are left out.
    - [requests.get] reads a [world] (the clock and the web) and appends the
      request to a trace, threaded through the monad [M]; every address is
      requested at most once in a run, so the web is a function of the
      request.
    - The progress messages printed before each parse and the file [main]
      writes are left out: [main] returns the list it hands to
      [json.dump]. *)

From Stdlib Require Import String Ascii ZArith NArith Bool Lia List.
Import ListNotations.
Open Scope Z_scope.
Set Warnings "-register-all".

(** ** Strings *)

Definition str := list N.

Definition u (s : string) : str :=
  map (fun c => N_of_ascii c) (list_ascii_of_string s).
Arguments u s%_string : simpl never.

Fixpoint str_eqb (a b : str) : bool :=
  match a, b with
  | [], [] => true
  | x :: a', y :: b' => N.eqb x y && str_eqb a' b'
  | _, _ => false
  end.

Fixpoint startswith (p s : str) : bool :=
  match p, s with
  | [], _ => true
  | x :: p', y :: s' => N.eqb x y && startswith p' s'
  | _ :: _, [] => false
  end.

Fixpoint takewhile (f : N -> bool) (s : str) : str :=
  match s with
  | [] => []
  | c :: s' => if f c then c :: takewhile f s' else []
  end.

Fixpoint dropwhile (f : N -> bool) (s : str) : str :=
  match s with
  | [] => []
  | c :: s' => if f c then dropwhile f s' else s
  end.

(** [s.endswith(suffix)] *)
Definition endswith (suffix s : str) : bool :=
  startswith (rev suffix) (rev s).

(** [Py_UNICODE_ISSPACE]: the code points removed by [str.strip()] and
    matched by [\s] in a [str] pattern. *)
Definition isspace (c : N) : bool :=
  (((9 <=? c) && (c <=? 13)) || ((28 <=? c) && (c <=? 32))
   || (c =? 133) || (c =? 160) || (c =? 5760)
   || ((8192 <=? c) && (c <=? 8202)) || (c =? 8232) || (c =? 8233)
   || (c =? 8239) || (c =? 8287) || (c =? 12288))%N.

Definition lstrip (s : str) : str := dropwhile isspace s.
Definition rstrip (s : str) : str := rev (dropwhile isspace (rev s)).
Definition strip (s : str) : str := rstrip (lstrip s).

(** [bytes] obtained by [s.encode('ascii', 'ignore')]: the code points
    below 128, in order. *)
Definition encode_ascii_ignore (s : str) : str :=
  filter (fun c => (c <? 128)%N) s.

(** [s.split(sep)] for a non-empty [sep]: [skip] counts the characters of a
    separator still to pass over, [cur] is the current piece, reversed. *)
Fixpoint split_go (sep s : str) (skip : nat) (cur : str) : list str :=
  match s with
  | [] => [rev cur]
  | c :: s' =>
      match skip with
      | S k => split_go sep s' k cur
      | O => if startswith sep s
             then rev cur :: split_go sep s' (Nat.pred (length sep)) []
             else split_go sep s' O (c :: cur)
      end
  end.

Definition split (sep s : str) : list str := split_go sep s O [].

(** [re.split(r',|\|', s)] *)
Fixpoint re_split_comma_bar_go (s cur : str) : list str :=
  match s with
  | [] => [rev cur]
  | c :: s' =>
      if ((c =? 44) || (c =? 124))%N
      then rev cur :: re_split_comma_bar_go s' []
      else re_split_comma_bar_go s' (c :: cur)
  end.

Definition re_split_comma_bar (s : str) : list str :=
  re_split_comma_bar_go s [].

(** [re.sub(r'\\"', '"', s, flags=re.S)]: every backslash followed by a
    double quote becomes the double quote. *)
Fixpoint re_sub_escaped_quote (s : str) : str :=
  match s with
  | [] => []
  | c :: s' =>
      match s' with
      | d :: s'' =>
          if ((c =? 92) && (d =? 34))%N
          then 34%N :: re_sub_escaped_quote s''
          else c :: re_sub_escaped_quote s'
      | [] => [c]
      end
  end.

(** [re.sub(r'^with\s*', '', s)] *)
Definition re_sub_with (s : str) : str :=
  if startswith (u "with") s then dropwhile isspace (skipn 4 s) else s.

(** [re.search(r'<div[^<>]*>([^<]+)', s)], giving group 1 of the leftmost
    match. *)
Definition match_div_at (s : str) : option str :=
  if startswith (u "<div") s then
    match dropwhile (fun c => negb ((c =? 60) || (c =? 62))%N) (skipn 4 s) with
    | 62%N :: body =>
        match takewhile (fun c => negb (c =? 60)%N) body with
        | [] => None
        | g => Some g
        end
    | _ => None
    end
  else None.

Fixpoint re_search_div (s : str) : option str :=
  match match_div_at s with
  | Some g => Some g
  | None => match s with
            | [] => None
            | _ :: s' => re_search_div s'
            end
  end.

(** [re.search(r'events: (\[.*?])', s, flags=re.S)], giving group 1 of the
    leftmost match: the lazy star stops at the first closing bracket. *)
Definition match_events_at (s : str) : option str :=
  if startswith (u "events: [") s then
    let body := skipn 9 s in
    if existsb (fun c => (c =? 93)%N) body
    then Some (91%N :: takewhile (fun c => negb (c =? 93)%N) body ++ [93%N])
    else None
  else None.

Fixpoint re_search_events (s : str) : option str :=
  match match_events_at s with
  | Some g => Some g
  | None => match s with
            | [] => None
            | _ :: s' => re_search_events s'
            end
  end.

(** [s[1:-1]] *)
Definition slice_1_m1 (s : str) : str := removelast (tl s).

(** Decimal rendering of integers, as [str(n)] and ['{0}'.format(n)]. *)
Fixpoint dec_aux (fuel : nat) (n : N) (acc : str) : str :=
  match fuel with
  | O => acc
  | S f =>
      let acc' := (48 + n mod 10)%N :: acc in
      if (n / 10 =? 0)%N then acc' else dec_aux f (n / 10)%N acc'
  end.

Definition str_of_N (n : N) : str := dec_aux (S (N.to_nat (N.log2 n))) n [].

Definition str_of_Z (z : Z) : str :=
  if z <? 0 then 45%N :: str_of_N (Z.abs_N z) else str_of_N (Z.abs_N z).

(** ['%0wd' % z] *)
Definition pad_int (w : nat) (z : Z) : str :=
  let ds := str_of_N (Z.abs_N z) in
  if z <? 0
  then 45%N :: repeat 48%N (w - 1 - length ds) ++ ds
  else repeat 48%N (w - length ds) ++ ds.

(** ** Exceptions *)

Inductive exn : Type :=
| KeyError | IndexError | TypeError | AttributeError
| ValueError | OverflowError | RequestException.

Inductive res (A : Type) : Type :=
| Ok (a : A)
| Raise (e : exn).
Arguments Ok {A} a.
Arguments Raise {A} e.

Definition bind {A B} (m : res A) (k : A -> res B) : res B :=
  match m with
  | Ok a => k a
  | Raise e => Raise e
  end.

Declare Scope res_scope.
Delimit Scope res_scope with res.
Notation "x <- m ;; k" := (bind m (fun x => k))
  (at level 61, m at next level, right associativity) : res_scope.
Open Scope res_scope.

Fixpoint mapM {A B} (f : A -> res B) (l : list A) : res (list B) :=
  match l with
  | [] => Ok []
  | a :: l' => b <- f a ;; bs <- mapM f l' ;; Ok (b :: bs)
  end.

(** ** Decoded JSON *)

Inductive json : Type :=
| JNull
| JBool (b : bool)
| JInt (z : Z)
| JStr (s : str)
| JArr (l : list json)
| JObj (kvs : list (str * json)).

Fixpoint assoc {A} (k : str) (kvs : list (str * A)) : option A :=
  match kvs with
  | [] => None
  | (k', v) :: kvs' => if str_eqb k k' then Some v else assoc k kvs'
  end.

(** [v[k]] for a string key [k]: only a dict can be indexed by a string. *)
Definition getitem (v : json) (k : str) : res json :=
  match v with
  | JObj kvs => match assoc k kvs with
                | Some x => Ok x
                | None => Raise KeyError
                end
  | _ => Raise TypeError
  end.

(** Truth value of a decoded value, as tested by [if v:]. *)
Definition truthy (v : json) : bool :=
  match v with
  | JNull => false
  | JBool b => b
  | JInt z => negb (z =? 0)
  | JStr s => match s with [] => false | _ => true end
  | JArr l => match l with [] => false | _ => true end
  | JObj kvs => match kvs with [] => false | _ => true end
  end.

(** The items visited by [for x in v]. *)
Definition iter (v : json) : res (list json) :=
  match v with
  | JArr l => Ok l
  | JObj kvs => Ok (map (fun kv => JStr (fst kv)) kvs)
  | JStr s => Ok (map (fun c => JStr [c]) s)
  | _ => Raise TypeError
  end.

(** A value used where the code needs a [str]; [err] is what the operation
    raises on another type. *)
Definition as_str (err : exn) (v : json) : res str :=
  match v with
  | JStr s => Ok s
  | _ => Raise err
  end.

(** ** Points in time *)

Inductive tz : Type :=
| tzoffset (seconds : Z)
| tzlocal.

Record datetime : Type := mkdatetime {
  year : Z; month : Z; day : Z;
  hour : Z; minute : Z; second : Z; microsecond : Z;
  tzinfo : option tz
}.

Definition is_leap (y : Z) : bool :=
  (y mod 4 =? 0) && (negb (y mod 100 =? 0) || (y mod 400 =? 0)).

Definition days_in_month (y m : Z) : Z :=
  if m =? 2 then (if is_leap y then 29 else 28)
  else if (m =? 4) || (m =? 6) || (m =? 9) || (m =? 11) then 30 else 31.

(** The ranges every [datetime] object satisfies. *)
Definition valid_datetime (d : datetime) : Prop :=
  1 <= year d <= 9999 /\ 1 <= month d <= 12 /\
  1 <= day d <= days_in_month (year d) (month d) /\
  0 <= hour d <= 23 /\ 0 <= minute d <= 59 /\ 0 <= second d <= 59 /\
  0 <= microsecond d <= 999999.

Definition replace_tzinfo (d : datetime) (t : tz) : datetime :=
  mkdatetime (year d) (month d) (day d) (hour d) (minute d) (second d)
             (microsecond d) (Some t).

Definition replace_day (d : datetime) (n : Z) : res datetime :=
  if (1 <=? n) && (n <=? days_in_month (year d) (month d))
  then Ok (mkdatetime (year d) (month d) n (hour d) (minute d) (second d)
                      (microsecond d) (tzinfo d))
  else Raise ValueError.

Definition replace_year (d : datetime) (y : Z) : res datetime :=
  if (1 <=? y) && (y <=? 9999) && (day d <=? days_in_month y (month d))
  then Ok (mkdatetime y (month d) (day d) (hour d) (minute d) (second d)
                      (microsecond d) (tzinfo d))
  else Raise ValueError.

(** ** Parsed HTML

    The tree BeautifulSoup builds: text nodes and tags; a tag carries its
    name, the list of its classes (the multi-valued [class] attribute), its
    other attributes and its children in document order. *)

Inductive node : Type :=
| Text (s : str)
| Tag (name : str) (classes : list str) (attrs : list (str * str))
      (children : list node).

(** All nodes below [n], in document order. *)
Fixpoint descendants (n : node) : list node :=
  match n with
  | Text _ => []
  | Tag _ _ _ cs => flat_map (fun c => c :: descendants c) cs
  end.

Definition has_class (c : str) (cls : list str) : bool :=
  existsb (str_eqb c) cls.

(** A tag named [nm] carrying every class of [want]. *)
Definition tag_matches (nm : str) (want : list str) (n : node) : bool :=
  match n with
  | Text _ => false
  | Tag nm' cls _ _ => str_eqb nm nm' && forallb (fun c => has_class c cls) want
  end.

(** [e.find_all(nm, class_=c)]; with two or more classes it is
    [e.select('nm.c1.c2')]. *)
Definition find_all (e : node) (nm : str) (want : list str) : list node :=
  filter (tag_matches nm want) (descendants e).

(** [e.find(nm, class_=c)] and [e.select_one('nm.c1.c2')]: the first match
    or [None]. *)
Definition find (e : node) (nm : str) (want : list str) : option node :=
  match find_all e nm want with
  | [] => None
  | n :: _ => Some n
  end.

(** [tag[k]] *)
Definition attr (n : node) (k : str) : res str :=
  match n with
  | Tag _ _ kvs _ => match assoc k kvs with
                     | Some v => Ok v
                     | None => Raise KeyError
                     end
  | Text _ => Raise TypeError
  end.

(** The strings below [n] in document order ([n] itself when it is a text
    node). *)
Definition strings (n : node) : list str :=
  flat_map (fun d => match d with Text s => [s] | Tag _ _ _ _ => [] end)
           (n :: descendants n).

(** [n.get_text(strip=True)]: every string stripped, the empty ones left
    out, joined without separator. *)
Definition get_text_strip (n : node) : str :=
  concat (filter (fun s => match s with [] => false | _ => true end)
                 (map strip (strings n))).

(** ** The web and the clock *)

Record request : Type := mkrequest {
  url : str;
  params : list (str * json)
}.

Record response : Type := mkresponse {
  status_code : Z;
  text : str;
  (** what [r.json()] returns or raises *)
  json_body : res json
}.

Record world : Type := mkworld {
  (** [datetime.datetime.today()] during the run *)
  today : datetime;
  (** the answer to a GET request, or the exception [requests.get] raises *)
  web : request -> res response
}.

(** Computations that send requests: the trace of the requests sent so far
    is threaded through; an exception keeps the trace. *)
Definition M (A : Type) : Type := list request -> res A * list request.

Definition ret {A} (a : A) : M A := fun t => (Ok a, t).

Definition bindM {A B} (m : M A) (k : A -> M B) : M B :=
  fun t => match m t with
           | (Ok a, t') => k a t'
           | (Raise e, t') => (Raise e, t')
           end.

Definition lift {A} (r : res A) : M A := fun t => (r, t).

Notation "x <-- m ;; k" := (bindM m (fun x => k))
  (at level 61, m at next level, right associativity).

Definition requests_get (w : world) (q : request) : M response :=
  fun t => (web w q, t ++ [q]).

(** [for x in l: s = body x s], stopping at the first exception. *)
Fixpoint for_in {A S} (l : list A) (body : A -> S -> res S) (s : S)
  : res S :=
  match l with
  | [] => Ok s
  | x :: l' => s' <- body x s ;; for_in l' body s'
  end.

Fixpoint for_inM {A S} (l : list A) (body : A -> S -> M S) (s : S) : M S :=
  match l with
  | [] => ret s
  | x :: l' => s' <-- body x s ;; for_inM l' body s'
  end.

(** ** The imported packages *)

Class Library : Type := {
  (** full lower-case mapping of a code point outside ASCII *)
  unicode_lower : N -> str;
  (** [dateutil.tz.tzlocal().utcoffset(d)], in seconds *)
  tzlocal_utcoffset : datetime -> Z;
  (** [dateutil.parser.parse(s)] *)
  dateutil_parse : str -> res datetime;
  (** [datetime.datetime.strptime(s, '%Y-%m-%d %H:%M:%S')] *)
  strptime : str -> res datetime;
  (** [d.astimezone(dateutil.tz.tzlocal())] *)
  astimezone_tzlocal : datetime -> res datetime;
  (** [BeautifulSoup(text, 'html.parser')] *)
  BeautifulSoup : str -> node;
  (** [demjson.decode(text)] *)
  demjson_decode : str -> res json;
  (** [json.loads(text)] *)
  json_loads : str -> res json;
  (** [str(v)] of a decoded value that is neither a string nor an integer *)
  str_of_other : json -> str
}.

(** Every [datetime] a package hands back is a [datetime] object, so its
    fields are in range. *)
Class LibraryOk (L : Library) : Prop := {
  dateutil_parse_valid :
    forall s d, dateutil_parse s = Ok d -> valid_datetime d;
  strptime_valid :
    forall s d, strptime s = Ok d -> valid_datetime d;
  astimezone_tzlocal_valid :
    forall d d', astimezone_tzlocal d = Ok d' -> valid_datetime d'
}.

Section Parsers.

Context {L : Library}.

(** [s.lower()].  The one rule of [str.lower] that looks at the neighbours
    of a letter (final sigma) chooses between two letters outside ASCII. *)
Definition lower (s : str) : str :=
  flat_map (fun c => if ((65 <=? c) && (c <=? 90))%N then [(c + 32)%N]
                     else if (c <? 128)%N then [c]
                     else unicode_lower c) s.

(** ['{0}'.format(v)] *)
Definition format (v : json) : str :=
  match v with
  | JStr s => s
  | JInt z => str_of_Z z
  | _ => str_of_other v
  end.

(** [d.utcoffset()] in seconds; the offset must lie strictly within one
    day. *)
Definition utcoffset (d : datetime) : res (option Z) :=
  match tzinfo d with
  | None => Ok None
  | Some t =>
      let off := match t with
                 | tzoffset s => s
                 | tzlocal => tzlocal_utcoffset d
                 end in
      if (-86400 <? off) && (off <? 86400) then Ok (Some off)
      else Raise ValueError
  end.

Definition format_time (d : datetime) : str :=
  pad_int 2 (hour d) ++ [58%N] ++ pad_int 2 (minute d) ++ [58%N]
  ++ pad_int 2 (second d)
  ++ (if microsecond d =? 0 then [] else 46%N :: pad_int 6 (microsecond d)).

Definition format_offset (off : option Z) : str :=
  match off with
  | None => []
  | Some o =>
      let sign := if o <? 0 then 45%N else 43%N in
      let a := Z.abs o in
      let hh := a / 3600 in
      let mm := (a mod 3600) / 60 in
      let ss := a mod 60 in
      [sign] ++ pad_int 2 hh ++ [58%N] ++ pad_int 2 mm
      ++ (if ss =? 0 then [] else 58%N :: pad_int 2 ss)
  end.

(** [d.isoformat()] *)
Definition isoformat (d : datetime) : res str :=
  let s := pad_int 4 (year d) ++ [45%N] ++ pad_int 2 (month d) ++ [45%N]
           ++ pad_int 2 (day d) ++ [84%N] ++ format_time d in
  off <- utcoffset d ;;
  Ok (s ++ format_offset off).

(** ** class Event *)

Record Event : Type := mkEvent {
  venue : json;
  bands : list json;
  start : datetime;
  link : str;
  soldout : bool
}.

(** What [datetime.datetime.today()] returned when the module was
    imported. *)
Variable today_at_import : datetime.

(** The default values of [Event.__init__], bound once, when the [def]
    statement runs as the module is imported. *)
Definition Event_defaults : Event :=
  mkEvent (JStr []) [] today_at_import [] false.

(** [Event(...)]: an argument left out ([None] here) takes the bound
    default. *)
Definition Event_init
    (venue0 : option json) (bands0 : option (list json))
    (start0 : option datetime) (link0 : option str)
    (soldout0 : option bool) : Event :=
  mkEvent (match venue0 with Some v => v | None => venue Event_defaults end)
          (match bands0 with Some b => b | None => bands Event_defaults end)
          (match start0 with Some s => s | None => start Event_defaults end)
          (match link0 with Some l => l | None => link Event_defaults end)
          (match soldout0 with Some b => b | None => soldout Event_defaults end).

Definition set_venue (ev : Event) (v : json) : Event :=
  mkEvent v (bands ev) (start ev) (link ev) (soldout ev).
Definition set_bands (ev : Event) (b : list json) : Event :=
  mkEvent (venue ev) b (start ev) (link ev) (soldout ev).
Definition set_start (ev : Event) (d : datetime) : Event :=
  mkEvent (venue ev) (bands ev) d (link ev) (soldout ev).
Definition set_link (ev : Event) (l : str) : Event :=
  mkEvent (venue ev) (bands ev) (start ev) l (soldout ev).
Definition set_soldout (ev : Event) (b : bool) : Event :=
  mkEvent (venue ev) (bands ev) (start ev) (link ev) b.

(** The plain mapping [to_json] returns: its items in insertion order. *)
Definition dict := list (str * json).

Definition to_json (ev : Event) : res dict :=
  s <- isoformat (start ev) ;;
  Ok [ (u "venue", venue ev);
       (u "bands", JArr (bands ev));
       (u "start", JStr s);
       (u "link", JStr (link ev));
       (u "soldout", JBool (soldout ev)) ].

(** [e.find(...)] followed by a method call on the result: [None] has no
    attributes. *)
Definition deref (o : option node) : res node :=
  match o with
  | Some n => Ok n
  | None => Raise AttributeError
  end.

Definition nonempty (s : str) : bool :=
  match s with [] => false | _ => true end.

(** ** Bowery Boston (HTML calendar) *)

Definition bowery_event_process (e : node) : res dict :=
  let ev := Event_init None None None None None in
  ev <- match find e (u "a") [] with
        | Some cursor =>
            href <- attr cursor (u "href") ;;
            Ok (set_link ev (u "https://www.boweryboston.com" ++ href))
        | None => Ok ev
        end ;;
  ev <- match find e (u "a") [u "calendar-dropdown-item"; u "google"] with
        | Some cursor =>
            ds <- attr cursor (u "data-start") ;;
            d <- dateutil_parse ds ;;
            d' <- astimezone_tzlocal d ;;
            Ok (set_start ev d')
        | None => Ok ev
        end ;;
  loc <- deref (find e (u "p") [u "list-location"]) ;;
  let ev := match find loc (u "strong") [] with
            | Some cursor => set_venue ev (JStr (get_text_strip cursor))
            | None => ev
            end in
  bands <- match find e (u "div") [u "info-title"] with
           | Some artist_info =>
               let bands :=
                 match find artist_info (u "a") [] with
                 | Some cursor =>
                     if nonempty (get_text_strip cursor)
                     then [JStr (get_text_strip cursor)] else []
                 | None => []
                 end in
               match find e (u "div") [u "supporting-acts"] with
               | Some cursor =>
                   span <- deref (find cursor (u "span") []) ;;
                   let supp_arr :=
                     split (u ", ") (re_sub_with (get_text_strip span)) in
                   Ok (bands ++ map JStr (filter nonempty supp_arr))
               | None => Ok bands
               end
           | None => Ok []
           end ;;
  let ev := set_bands ev bands in
  let ev := match find e (u "a")
                       [u "button"; u "event"; u "ticket"; u "primary"] with
            | Some cursor =>
                if str_eqb (lower (get_text_strip cursor)) (u "sold out")
                then set_soldout ev true else ev
            | None => ev
            end in
  to_json ev.

Definition bowery_shows (w : world) : M (list dict) :=
  r <-- requests_get w (mkrequest (u "https://www.boweryboston.com/info/events/get?scope=all&page=0&rows=9999&venues=boston") []) ;;
  let soup := BeautifulSoup (text r) in
  let events := find_all soup (u "div") [u "show-item"] in
  lift (for_in events
          (fun e events_list =>
             j <- bowery_event_process e ;;
             Ok (events_list ++ [j]))
          []).

(** ** House of Blues (date-ranged JSON API) *)

(** [d.strftime('%m/%d/%Y')]; the year as the C library prints it. *)
Definition strftime_mdY (d : datetime) : str :=
  pad_int 2 (month d) ++ [47%N] ++ pad_int 2 (day d) ++ [47%N]
  ++ str_of_Z (year d).

(** [artist_array.pop(0)]: the first element and the list left behind. *)
Definition pop0 (v : json) : res (json * list json) :=
  match v with
  | JArr (a :: rest) => Ok (a, rest)
  | JArr [] => Raise IndexError
  | JObj _ => Raise KeyError
  | _ => Raise AttributeError
  end.

(** [v.lower().encode('ascii', 'ignore')] *)
Definition normalized (v : json) : res str :=
  s <- as_str AttributeError v ;;
  Ok (encode_ascii_ignore (lower s)).

(** The body of the loop over the artists left after the first. *)
Definition houseofblues_support (i a : json) (bands : list json)
  : res (list json) :=
  an <- getitem a (u "name") ;;
  na <- normalized an ;;
  t <- getitem i (u "title") ;;
  nt <- normalized t ;;
  if negb (str_eqb na nt)
  then an' <- getitem a (u "name") ;; Ok (bands ++ [an'])
  else Ok bands.

(** The body of the loop over [rawobj['result']]. *)
Definition houseofblues_item (i : json)
    (events_list : list dict) : res (list dict) :=
  artist_array <- getitem i (u "artists") ;;
  popped <- pop0 artist_array ;;
  let (first, artist_array) := popped in
  headliner <- getitem first (u "name") ;;
  bands <- for_in artist_array (houseofblues_support i) [headliner] ;;
  vn <- getitem i (u "venueName") ;;
  ed <- getitem i (u "eventDate") ;;
  eds <- as_str TypeError ed ;;
  d <- dateutil_parse eds ;;
  id <- getitem i (u "eventID") ;;
  let ev := Event_init (Some vn) (Some bands)
              (Some (replace_tzinfo d tzlocal))
              (Some (u "http://www.houseofblues.com/boston/EventDetail?tmeventid="
                     ++ format id ++ u "&offerid=0"))
              None in
  so <- getitem i (u "soldOut") ;;
  let ev := if truthy so then set_soldout ev true else ev in
  j <- to_json ev ;;
  Ok (events_list ++ [j]).

Definition houseofblues (w : world) : M (list dict) :=
  let start_date := today w in
  end_date <-- lift (replace_year start_date (year start_date + 1)) ;;
  r <-- requests_get w
          (mkrequest
             (u "http://www.houseofblues.com/boston/api/EventCalendar/GetEvents")
             [ (u "startDate", JStr (strftime_mdY start_date));
               (u "endDate", JStr (strftime_mdY end_date));
               (u "venueIds", JInt 9044);
               (u "limit", JInt 9999);
               (u "offset", JInt 1);
               (u "genre", JStr []);
               (u "artist", JStr []);
               (u "offerType", JStr (u "STANDARD,STANDARD - Priority")) ]) ;;
  let ftext := re_sub_escaped_quote (slice_1_m1 (text r)) in
  rawobj <-- lift (json_loads ftext) ;;
  result <-- lift (getitem rawobj (u "result")) ;;
  items <-- lift (iter result) ;;
  lift (for_in items (houseofblues_item) []).

(** ** The Middle East (array literal embedded in a page) *)

(** What the [try] block computes for one item. *)
Definition middleeast_item (i : json) : res dict :=
  v <- getitem i (u "venue") ;;
  vs <- as_str TypeError v ;;
  ventext <- match re_search_div vs with
             | Some g => Ok g
             | None => Raise AttributeError
             end ;;
  t <- getitem i (u "title") ;;
  ts <- as_str TypeError t ;;
  let bands := map (fun x => JStr (strip x)) (re_split_comma_bar ts) in
  s <- getitem i (u "start") ;;
  ss <- as_str TypeError s ;;
  d <- strptime ss ;;
  id <- getitem i (u "id") ;;
  ids <- as_str TypeError id ;;
  let ev := Event_init (Some (JStr ventext)) (Some bands)
              (Some (replace_tzinfo d tzlocal))
              (Some (u "http://www.mideastoffers.com/event/" ++ ids))
              None in
  to_json ev.

(** [for i in obj: try: ... except: pass] *)
Fixpoint middleeast_loop (obj : list json)
    (events_list : list dict) : list dict :=
  match obj with
  | [] => events_list
  | i :: obj' =>
      match middleeast_item i with
      | Ok j => middleeast_loop obj' (events_list ++ [j])
      | Raise _ => middleeast_loop obj' events_list
      end
  end.

Definition middleeast (data : str) : res (list dict) :=
  match re_search_events data with
  | Some g =>
      obj <- demjson_decode g ;;
      items <- iter obj ;;
      Ok (middleeast_loop items [])
  | None => Ok []
  end.

(** ** Crossroads venues (month-by-month JSON API) *)

Definition is_str (v : json) (s : str) : bool :=
  match v with
  | JStr s' => str_eqb s' s
  | _ => false
  end.

(** The body of the inner loop over [g['events']]. *)
Definition crossroads_event (e : json)
    (events_list : list dict) : res (list dict) :=
  c <- getitem e (u "category_param") ;;
  if is_str c (u "music") then
    v <- getitem e (u "venue") ;;
    vt <- getitem v (u "title") ;;
    a <- getitem e (u "artists") ;;
    bands <- (if truthy a
              then a' <- getitem e (u "artists") ;;
                   xs <- iter a' ;;
                   mapM (fun x => getitem x (u "title")) xs
              else t <- getitem e (u "title") ;; Ok [t]) ;;
    b <- getitem e (u "tz_adjusted_begin_date") ;;
    bs <- as_str TypeError b ;;
    d <- dateutil_parse bs ;;
    p <- getitem e (u "permalink") ;;
    ps <- as_str TypeError p ;;
    let ev := Event_init (Some vt) (Some bands) (Some d)
                (Some (u "http://events.crossroadspresents.com" ++ ps))
                None in
    so <- getitem e (u "sold_out") ;;
    let ev := if truthy so then set_soldout ev true else ev in
    j <- to_json ev ;;
    Ok (events_list ++ [j])
  else Ok events_list.

Definition crossroads_parse (data : json)
  : res (list dict) :=
  groups <- getitem data (u "event_groups") ;;
  gs <- iter groups ;;
  for_in gs
    (fun g events_list =>
       evs <- getitem g (u "events") ;;
       es <- iter evs ;;
       for_in es (crossroads_event) events_list)
    [].

(** ** The month loop *)

(** The first three statements of the loop body: the next calendar
    month. *)
Definition next_month (cur_date : Z * Z) : Z * Z :=
  let (m, y) := cur_date in
  let m := m + 1 in
  if m >? 12 then (1, y + 1) else (m, y).

Definition mideast_url (cur_date : Z * Z) : str :=
  u "http://www.mideastoffers.com/all-shows/?cal-month="
  ++ str_of_Z (fst cur_date) ++ u "&cal-year=" ++ str_of_Z (snd cur_date).

Definition paradise_url (period : Z) : str :=
  u "http://events.crossroadspresents.com/venues/paradise-rock-club/month_events.json?period="
  ++ str_of_Z period.

Definition brighton_url (period : Z) : str :=
  u "http://events.crossroadspresents.com/venues/brighton-music-hall/month_events.json?period="
  ++ str_of_Z period.

(** [r = requests.get(url); if r.status_code == 200: events_list +=
    parse(r)] *)
Definition fetch_into (w : world) (address : str)
    (parse : response -> res (list dict)) (events_list : list dict)
  : M (list dict) :=
  r <-- requests_get w (mkrequest address []) ;;
  if status_code r =? 200
  then l <-- lift (parse r) ;; ret (events_list ++ l)
  else ret events_list.

Definition monthly_cals_body (w : world) (period : Z)
    (st : (Z * Z) * list dict) : M ((Z * Z) * list dict) :=
  let (cur_date, events_list) := st in
  let cur_date := next_month cur_date in
  events_list <-- fetch_into w (mideast_url cur_date)
                    (fun r => middleeast (text r)) events_list ;;
  events_list <-- fetch_into w (paradise_url period)
                    (fun r => j <- json_body r ;; crossroads_parse j)
                    events_list ;;
  events_list <-- fetch_into w (brighton_url period)
                    (fun r => j <- json_body r ;; crossroads_parse j)
                    events_list ;;
  ret (cur_date, events_list).

(** [range(0, 12)] *)
Definition range12 : list Z := map Z.of_nat (seq 0 12).

Definition monthly_cals (w : world) : M (list dict) :=
  today1 <-- lift (replace_day (today w) 1) ;;
  let cur_date := (month today1, year today1) in
  st <-- for_inM range12 (monthly_cals_body w) (cur_date, []) ;;
  ret (snd st).

(** ** get_events.main: the list handed to [json.dump] *)

Definition main (w : world) : M (list dict) :=
  let events_output := [] in
  l <-- bowery_shows w ;;
  let events_output := events_output ++ l in
  l <-- monthly_cals w ;;
  let events_output := events_output ++ l in
  ret events_output.

End Parsers.

(** ** A small library to run the parsers on

    A stand-in for the imported packages, enough to evaluate the parsers on
    the pages below: the machine's zone is UTC, timestamps are read in the
    two layouts the venues send, letters outside ASCII are lowered in
    Latin-1 only, the decoders and the HTML parser know the documents
    listed here (any other text is plain text to the HTML parser and not a
    document to the decoders), and the documents hold no value that
    [str_of_other] would have to print other than [None], [True] and
    [False]. *)

Module Sample.

Definition valid_datetime_b (d : datetime) : bool :=
  (1 <=? year d) && (year d <=? 9999) && (1 <=? month d) && (month d <=? 12)
  && (1 <=? day d) && (day d <=? days_in_month (year d) (month d))
  && (0 <=? hour d) && (hour d <=? 23) && (0 <=? minute d)
  && (minute d <=? 59) && (0 <=? second d) && (second d <=? 59)
  && (0 <=? microsecond d) && (microsecond d <=? 999999).

Definition checked (d : datetime) : res datetime :=
  if valid_datetime_b d then Ok d else Raise ValueError.

Definition is_digit (c : N) : bool := ((48 <=? c) && (c <=? 57))%N.

(** Value of a string of decimal digits. *)
Definition number (s : str) : option Z :=
  if nonempty s && forallb is_digit s
  then Some (fold_left (fun a c => 10 * a + (Z.of_N c - 48)) s 0)
  else None.

Definition field (s : str) (from len : nat) : option Z :=
  number (firstn len (skipn from s)).

Definition char_at (s : str) (i : nat) : N := nth i s 0%N.

(** [YYYY-MM-DD?HH:MM:SS] with [sep] at position 10. *)
Definition read_fields (sep : N) (s : str) : option datetime :=
  match field s 0 4, field s 5 2, field s 8 2,
        field s 11 2, field s 14 2, field s 17 2 with
  | Some y, Some mo, Some d, Some h, Some mi, Some se =>
      if ((char_at s 4 =? 45) && (char_at s 7 =? 45) && (char_at s 10 =? sep)
          && (char_at s 13 =? 58) && (char_at s 16 =? 58))%N
      then Some (mkdatetime y mo d h mi se 0 None)
      else None
  | _, _, _, _, _, _ => None
  end.

(** The zone suffix: nothing, [Z], or a sign and [HH:MM]. *)
Definition read_zone (s : str) : option (option tz) :=
  match s with
  | [] => Some None
  | [90%N] => Some (Some (tzoffset 0))
  | sign :: rest =>
      match field rest 0 2, field rest 3 2 with
      | Some h, Some m =>
          if ((char_at rest 2 =? 58)%N && (length rest =? 5)%nat
              && ((sign =? 43) || (sign =? 45))%N)%bool
          then Some (Some (tzoffset ((if (sign =? 45)%N then -1 else 1)
                                     * (h * 3600 + m * 60))))
          else None
      | _, _ => None
      end
  end.

Definition parse_iso (s : str) : res datetime :=
  match read_fields 84%N (firstn 19 s), read_zone (skipn 19 s) with
  | Some d, Some z =>
      checked (mkdatetime (year d) (month d) (day d) (hour d) (minute d)
                          (second d) 0 z)
  | _, _ => Raise ValueError
  end.

Definition parse_ymdhms (s : str) : res datetime :=
  match read_fields 32%N s with
  | Some d => if (length s =? 19)%nat then checked d else Raise ValueError
  | None => Raise ValueError
  end.

Definition previous_day (d : datetime) : datetime :=
  if 1 <? day d
  then mkdatetime (year d) (month d) (day d - 1) (hour d) (minute d)
                  (second d) (microsecond d) (tzinfo d)
  else if 1 <? month d
  then mkdatetime (year d) (month d - 1)
                  (days_in_month (year d) (month d - 1)) (hour d) (minute d)
                  (second d) (microsecond d) (tzinfo d)
  else mkdatetime (year d - 1) 12 31 (hour d) (minute d) (second d)
                  (microsecond d) (tzinfo d).

Definition following_day (d : datetime) : datetime :=
  if day d <? days_in_month (year d) (month d)
  then mkdatetime (year d) (month d) (day d + 1) (hour d) (minute d)
                  (second d) (microsecond d) (tzinfo d)
  else if month d <? 12
  then mkdatetime (year d) (month d + 1) 1 (hour d) (minute d) (second d)
                  (microsecond d) (tzinfo d)
  else mkdatetime (year d + 1) 1 1 (hour d) (minute d) (second d)
                  (microsecond d) (tzinfo d).

(** Conversion to the zone of the machine, which is UTC: the wall time
    moves back by the offset of [d]. *)
Definition to_utc (d : datetime) : res datetime :=
  let off := match tzinfo d with
             | Some (tzoffset s) => s
             | _ => 0
             end in
  let t := hour d * 3600 + minute d * 60 + second d - off in
  let d' := if t <? 0 then previous_day d
            else if 86400 <=? t then following_day d else d in
  let t' := t mod 86400 in
  checked (mkdatetime (year d') (month d') (day d') (t' / 3600)
                      ((t' mod 3600) / 60) (t' mod 60) (microsecond d)
                      (Some tzlocal)).

Definition document (children : list node) : node :=
  Tag (u "[document]") [] [] children.

(** One show of the Bowery calendar, as the parser builds it. *)
Definition show_item : node :=
  Tag (u "div") [u "show-item"] []
    [ Tag (u "p") [u "list-location"] []
        [ Tag (u "strong") [] [] [Text (u "The Sinclair")] ];
      Tag (u "div") [u "info-title"] []
        [ Tag (u "h3") [] []
            [ Tag (u "a") []
                [(u "href", u "/boston/shows/detail/347671-lucy-dacus")]
                [Text (u "Lucy Dacus")] ] ];
      Tag (u "div") [u "supporting-acts"] []
        [ Tag (u "span") [] [] [Text (u "with And The Kids, Adult Mom")] ];
      Tag (u "a") [u "calendar-dropdown-item"; u "google"]
        [(u "data-start", u "2018-04-12T00:15:00Z"); (u "href", [])] [];
      Tag (u "a") [u "button"; u "event"; u "ticket"; u "primary"]
        [(u "href", u "http://www.axs.com/events/347671/lucy-dacus-tickets")]
        [Text (u "Sold Out")] ].

Definition bowery_page : str :=
  u "<div class='show-item'><p class='list-location'><strong>The Sinclair</strong></p><div class='info-title'><h3><a href='/boston/shows/detail/347671-lucy-dacus'>Lucy Dacus</a></h3></div><div class='supporting-acts'><span>with And The Kids, Adult Mom</span></div><a class='calendar-dropdown-item google' data-start='2018-04-12T00:15:00Z' href=''></a><a class='button event ticket primary' href='http://www.axs.com/events/347671/lucy-dacus-tickets'>Sold Out</a></div>".

(** The month document of the scenario for the Crossroads venues. *)
Definition crossroads_month : json :=
  JObj [ (u "event_groups",
          JArr [ JObj [ (u "events",
            JArr [ JObj
              [ (u "category_param", JStr (u "music"));
                (u "venue", JObj [(u "title", JStr (u "Paradise Rock Club"))]);
                (u "title", JStr (u "Show"));
                (u "sold_out", JBool false);
                (u "artists", JArr []);
                (u "tz_adjusted_begin_date",
                 JStr (u "2018-03-02T18:00:00-05:00"));
                (u "permalink", JStr (u "/events/x")) ] ]) ] ]) ].

Definition mideast_item (id title starts ven : string) : json :=
  JObj [ (u "id", JStr (u id)); (u "title", JStr (u title));
         (u "start", JStr (u starts)); (u "venue", JStr (u ven)) ].

Definition mideast_literal : str :=
  u "[{id: '1', title: 'Weakened Friends | Oompa', start: '2018-03-09 20:00:00', venue: '<div class=v>Upstairs</div>'}, {id: '2', title: 'Palehound', start: '2018-03-10 20:00:00', venue: '<div>Downstairs</div>'}, {id: '3', title: 'Pile', start: '2018-03-11 20:00:00', venue: 'Upstairs'}, {id: '4', title: 'Speedy Ortiz, Anna Burch', start: '2018-03-12 19:00:00', venue: '<div>Sonia</div>'}, {id: '5', title: 'Vundabar', start: '2018-03-13 19:00:00', venue: '<div>Zuzu</div>'}]".

Definition mideast_items : list json :=
  [ mideast_item "1" "Weakened Friends | Oompa" "2018-03-09 20:00:00"
      "<div class=v>Upstairs</div>";
    mideast_item "2" "Palehound" "2018-03-10 20:00:00" "<div>Downstairs</div>";
    mideast_item "3" "Pile" "2018-03-11 20:00:00" "Upstairs";
    mideast_item "4" "Speedy Ortiz, Anna Burch" "2018-03-12 19:00:00"
      "<div>Sonia</div>";
    mideast_item "5" "Vundabar" "2018-03-13 19:00:00" "<div>Zuzu</div>" ].

Definition mideast_page : str :=
  u "<script>var calendar = { events: " ++ mideast_literal
  ++ u ", editable: false };</script>".

Definition hob_item : json :=
  JObj [ (u "artists", JArr [ JObj [(u "name", JStr (u "Lucy Dacus"))];
                              JObj [(u "name", JStr (u "And The Kids"))] ]);
         (u "title", JStr (u "Lucy Dacus"));
         (u "venueName", JStr (u "House of Blues Boston"));
         (u "eventDate", JStr (u "2018-04-11T19:00:00"));
         (u "eventID", JInt 347671);
         (u "soldOut", JBool false) ].

(** A double-quoted JSON string. *)
Definition quoted (s : string) : str := 34%N :: u s ++ [34%N].

Definition hob_json : str :=
  u "{" ++ quoted "result" ++ u ": [{" ++ quoted "artists" ++ u ": [{"
  ++ quoted "name" ++ u ": " ++ quoted "Lucy Dacus" ++ u "}, {"
  ++ quoted "name" ++ u ": " ++ quoted "And The Kids" ++ u "}], "
  ++ quoted "title" ++ u ": " ++ quoted "Lucy Dacus" ++ u ", "
  ++ quoted "venueName" ++ u ": " ++ quoted "House of Blues Boston" ++ u ", "
  ++ quoted "eventDate" ++ u ": " ++ quoted "2018-04-11T19:00:00" ++ u ", "
  ++ quoted "eventID" ++ u ": 347671, " ++ quoted "soldOut" ++ u ": false}]}".

(** The body the API sends: the JSON text inside one more pair of quotes,
    its own quotes escaped. *)
Definition hob_body : str :=
  34%N :: flat_map (fun c => if (c =? 34)%N then [92%N; 34%N] else [c]) hob_json
  ++ [34%N].

#[export] Instance library : Library := {
  unicode_lower c :=
    if ((192 <=? c) && (c <=? 222) && negb (c =? 215))%N then [(c + 32)%N]
    else [c];
  tzlocal_utcoffset _ := 0;
  dateutil_parse := parse_iso;
  strptime := parse_ymdhms;
  astimezone_tzlocal := to_utc;
  BeautifulSoup s :=
    if str_eqb s bowery_page then document [show_item]
    else document (if nonempty s then [Text s] else []);
  demjson_decode s :=
    if str_eqb s mideast_literal then Ok (JArr mideast_items)
    else Raise ValueError;
  json_loads s :=
    if str_eqb s hob_json then Ok (JObj [(u "result", JArr [hob_item])])
    else Raise ValueError;
  str_of_other v :=
    match v with
    | JNull => u "None"
    | JBool true => u "True"
    | JBool false => u "False"
    | _ => u "[]"
    end
}.

(** The same show without its location paragraph. *)
Definition show_item_without_location : node :=
  match show_item with
  | Tag name classes attrs (_ :: children) => Tag name classes attrs children
  | n => n
  end.

Definition clock : datetime := mkdatetime 2018 1 15 10 30 0 0 None.

Definition not_found : response := mkresponse 404 [] (Raise ValueError).

(** A web on which the Bowery calendar, the Middle East for February 2018,
    the Paradise Rock Club for period 0 and the House of Blues answer, and
    every other address is not found. *)
Definition answers (q : request) : res response :=
  if str_eqb (url q) (u "https://www.boweryboston.com/info/events/get?scope=all&page=0&rows=9999&venues=boston")
  then Ok (mkresponse 200 bowery_page (Raise ValueError))
  else if str_eqb (url q) (mideast_url (2, 2018))
  then Ok (mkresponse 200 mideast_page (Raise ValueError))
  else if str_eqb (url q) (paradise_url 0)
  then Ok (mkresponse 200 [] (Ok crossroads_month))
  else if str_eqb (url q)
            (u "http://www.houseofblues.com/boston/api/EventCalendar/GetEvents")
  then Ok (mkresponse 200 hob_body (Raise ValueError))
  else Ok not_found.

Definition earth : world := mkworld clock answers.

(** The value a run returns, or no record when it raises. *)
Definition returned (run : res (list dict) * list request) : list dict :=
  match fst run with
  | Ok l => l
  | Raise _ => []
  end.

(** The venues of a list of records. *)
Definition venues (l : list dict) : list (option json) :=
  map (assoc (u "venue")) l.

(** The first item of the sample page. *)
Definition first_item : json :=
  mideast_item "1" "Weakened Friends | Oompa" "2018-03-09 20:00:00"
               "<div class=v>Upstairs</div>".

(** The record a parser returns, or the empty mapping when it raises. *)
Definition record_of (r : res dict) : dict :=
  match r with
  | Ok j => j
  | Raise _ => []
  end.

(** A web on which nothing is found. *)
Definition silent : world := mkworld clock (fun _ => Ok not_found).

(** The sample web on 29 February 2020. *)
Definition leap_day : world :=
  mkworld (mkdatetime 2020 2 29 9 0 0 0 None) answers.

(** The sample web, with a body that is not JSON for the Paradise Rock Club
    in period 0. *)
Definition garbled : world :=
  mkworld clock
    (fun q => if str_eqb (url q) (paradise_url 0)
              then Ok (mkresponse 200 (u "<html>") (Raise ValueError))
              else answers q).

(** A show whose only hyperlink has no [href]. *)
Definition show_item_bare_link : node :=
  Tag (u "div") [u "show-item"] []
    [ Tag (u "a") [] [] [Text (u "Lucy Dacus")] ].

(** A show whose supporting acts are not inside a span. *)
Definition show_item_without_span : node :=
  Tag (u "div") [u "show-item"] []
    [ Tag (u "p") [u "list-location"] []
        [ Tag (u "strong") [] [] [Text (u "The Sinclair")] ];
      Tag (u "div") [u "info-title"] [] [];
      Tag (u "div") [u "supporting-acts"] []
        [ Text (u "with And The Kids, Adult Mom") ] ].

Definition music_event : json :=
  JObj [ (u "category_param", JStr (u "music"));
         (u "venue", JObj [(u "title", JStr (u "Paradise Rock Club"))]);
         (u "title", JStr (u "Show"));
         (u "sold_out", JBool false);
         (u "artists", JArr []);
         (u "tz_adjusted_begin_date", JStr (u "2018-03-02T18:00:00-05:00"));
         (u "permalink", JStr (u "/events/x")) ].

Definition event_without_permalink : json :=
  JObj [ (u "category_param", JStr (u "music"));
         (u "venue", JObj [(u "title", JStr (u "Brighton Music Hall"))]);
         (u "title", JStr (u "Other")) ].

Definition comedy_event : json :=
  JObj [ (u "category_param", JStr (u "comedy")) ].

(** A month with one group of a music event and an event of another
    category. *)
Definition mixed_month : json :=
  JObj [ (u "event_groups",
          JArr [ JObj [ (u "events", JArr [music_event; comedy_event]) ] ]) ].

(** A month whose second event lacks its permalink. *)
Definition broken_month : json :=
  JObj [ (u "event_groups",
          JArr [ JObj [ (u "events",
                        JArr [music_event; event_without_permalink]) ] ]) ].

End Sample.

(** * Properties *)

Section Properties.

Context {L : Library}.
Variable today_at_import : datetime.

(** ** Vocabulary of the statements *)

(** The name of an artist after the first, as the comparison needs it. *)
Definition artist_name (a : json) : res str :=
  n <- getitem a (u "name") ;; as_str AttributeError n.

(** [name.lower().encode('ascii','ignore') !=
     title.lower().encode('ascii','ignore')] *)
Definition differs (title name : str) : bool :=
  negb (str_eqb (encode_ascii_ignore (lower name))
                (encode_ascii_ignore (lower title))).

(** The value of the [bands] argument in [crossroads_parse]. *)
Definition crossroads_bands (e : json) : res (list json) :=
  a <- getitem e (u "artists") ;;
  if truthy a
  then xs <- iter a ;; mapM (fun x => getitem x (u "title")) xs
  else t <- getitem e (u "title") ;; Ok [t].

(** The records of the items whose extraction does not raise. *)
Definition extracted (items : list json) : list dict :=
  flat_map (fun i => match middleeast_item today_at_import i with
                     | Ok j => [j]
                     | Raise _ => []
                     end) items.

Definition parser : Type := response -> res (list dict).

Definition mideast_parser : parser :=
  fun r => middleeast today_at_import (text r).

Definition crossroads_parser : parser :=
  fun r => j <- json_body r ;; crossroads_parse today_at_import j.

(** The three requests of one turn of the loop, each with the parser of its
    answer. *)
Definition period_requests (period : Z) (cur_date : Z * Z)
  : list (str * parser) :=
  [ (mideast_url cur_date, mideast_parser);
    (paradise_url period, crossroads_parser);
    (brighton_url period, crossroads_parser) ].

(** The requests of the turns [periods], starting after [cur_date]. *)
Fixpoint loop_requests (periods : list Z) (cur_date : Z * Z)
  : list (str * parser) :=
  match periods with
  | [] => []
  | k :: ks => period_requests k (next_month cur_date)
               ++ loop_requests ks (next_month cur_date)
  end.

Definition monthly_requests (w : world) : list (str * parser) :=
  loop_requests range12 (month (today w), year (today w)).

(** Sending a list of requests one after the other, adding what each
    parser returns for an answer with status 200. *)
Definition gather (w : world) (reqs : list (str * parser))
    (events_list : list dict) : M (list dict) :=
  for_inM reqs (fun ap acc => fetch_into w (fst ap) (snd ap) acc)
          events_list.

(** The records one request adds. *)
Definition contribution (w : world) (ap : str * parser)
  : res (list dict) :=
  r <- web w (mkrequest (fst ap) []) ;;
  if status_code r =? 200 then snd ap r else Ok [].

(** The calendar month after [(month, year)]: December is followed by
    January of the next year. *)
Definition calendar_succ (my : Z * Z) : Z * Z :=
  if fst my =? 12 then (1, snd my + 1) else (fst my + 1, snd my).

(** The [n] calendar months after [my], in order. *)
Fixpoint months_from (my : Z * Z) (n : nat) : list (Z * Z) :=
  match n with
  | O => []
  | S n' => calendar_succ my :: months_from (calendar_succ my) n'
  end.

Definition request_of (ap : str * parser) : request :=
  mkrequest (fst ap) [].

Definition bowery_request : request :=
  mkrequest (u "https://www.boweryboston.com/info/events/get?scope=all&page=0&rows=9999&venues=boston") [].

(** The requests of the two Crossroads venues for the twelve periods. *)
Definition paginated_requests : list (str * parser) :=
  flat_map (fun k => [ (paradise_url k, crossroads_parser);
                       (brighton_url k, crossroads_parser) ]) range12.

(** The requests of the Middle East for the twelve months after today. *)
Definition embedded_requests (w : world) : list (str * parser) :=
  map (fun my => (mideast_url my, mideast_parser))
      (months_from (month (today w), year (today w)) 12).

(** The aggregator as the specification words it: the records of the HTML
    adapter, then those of the paginated adapter pair, then those of the
    embedded-JSON adapter, then those of the conventional adapter. *)
Definition aggregate_as_claimed (w : world) : M (list dict) :=
  html <-- bowery_shows today_at_import w ;;
  paginated <-- gather w paginated_requests [] ;;
  embedded <-- gather w (embedded_requests w) [] ;;
  conventional <-- houseofblues today_at_import w ;;
  ret (html ++ paginated ++ embedded ++ conventional).

Definition is_digit (c : N) : bool := ((48 <=? c) && (c <=? 57))%N.

Definition digit_val (c : N) : Z := Z.of_N c - 48.

Definition andthen (o : option str) (f : str -> option str) : option str :=
  match o with
  | Some rest => f rest
  | None => None
  end.

(** Each reader takes what it recognises off the front of the text. *)
Definition literal (c : N) (s : str) : option str :=
  match s with
  | x :: rest => if (x =? c)%N then Some rest else None
  | [] => None
  end.

Definition two_digits (lo hi : Z) (s : str) : option str :=
  match s with
  | a :: b :: rest =>
      let v := 10 * digit_val a + digit_val b in
      if is_digit a && is_digit b && (lo <=? v) && (v <=? hi)
      then Some rest else None
  | _ => None
  end.

Definition four_digits (s : str) : option str :=
  match s with
  | a :: b :: c :: d :: rest =>
      if is_digit a && is_digit b && is_digit c && is_digit d
      then Some rest else None
  | _ => None
  end.

(** An optional decimal fraction of the second. *)
Definition fraction (s : str) : option str :=
  match s with
  | x :: d :: rest =>
      if (x =? 46)%N
      then (if is_digit d then Some (dropwhile is_digit rest) else None)
      else Some s
  | _ => Some s
  end.

(** An optional zone designator: [Z], or a sign, hours and minutes, and
    seconds as the [datetime] module prints and reads them. *)
Definition zone (s : str) : option str :=
  match s with
  | [] => Some []
  | c :: rest =>
      if (c =? 90)%N then Some rest
      else if ((c =? 43) || (c =? 45))%N then
        andthen (two_digits 0 23 rest) (fun r =>
        andthen (literal 58 r) (fun r =>
        andthen (two_digits 0 59 r) (fun r =>
        match r with
        | [] => Some []
        | _ => andthen (literal 58 r) (two_digits 0 59)
        end)))
      else None
  end.

(** [YYYY-MM-DDTHH:MM:SS], an optional fraction, an optional zone, and
    nothing after. *)
Definition iso8601 (s : str) : bool :=
  match
    andthen (four_digits s) (fun r =>
    andthen (literal 45 r) (fun r =>
    andthen (two_digits 1 12 r) (fun r =>
    andthen (literal 45 r) (fun r =>
    andthen (two_digits 1 31 r) (fun r =>
    andthen (literal 84 r) (fun r =>
    andthen (two_digits 0 23 r) (fun r =>
    andthen (literal 58 r) (fun r =>
    andthen (two_digits 0 59 r) (fun r =>
    andthen (literal 58 r) (fun r =>
    andthen (two_digits 0 59 r) (fun r =>
    andthen (fraction r) zone)))))))))))
  with
  | Some [] => true
  | _ => false
  end.

(** A serialized record: exactly the five keys, and an ISO 8601 timestamp
    under [start]. *)
Definition well_formed (j : dict) : Prop :=
  map fst j = [u "venue"; u "bands"; u "start"; u "link"; u "soldout"]
  /\ exists s, assoc (u "start") j = Some (JStr s) /\ iso8601 s = true.

(** [sep.join(l)] *)
Fixpoint join (sep : str) (l : list str) : str :=
  match l with
  | [] => []
  | [x] => x
  | x :: l' => x ++ sep ++ join sep l'
  end.

(** A text with a backslash put before each of its double quotes. *)
Definition escape_quotes (s : str) : str :=
  flat_map (fun c => if (c =? 34)%N then [92%N; 34%N] else [c]) s.

(** The separators of [re.split(r',|\|', s)]. *)
Definition is_separator (c : N) : bool := ((c =? 44) || (c =? 124))%N.

(** The headliner read from the title block of a show. *)
Definition bowery_headliner (artist_info : node) : list json :=
  match find artist_info (u "a") [] with
  | Some cursor =>
      if nonempty (get_text_strip cursor)
      then [JStr (get_text_strip cursor)] else []
  | None => []
  end.

(** The supporting acts read from a show. *)
Definition bowery_supporting (e : node) : list json :=
  match find e (u "div") [u "supporting-acts"] with
  | Some cursor =>
      match find cursor (u "span") [] with
      | Some span =>
          map JStr (filter nonempty
                      (split (u ", ") (re_sub_with (get_text_strip span))))
      | None => []
      end
  | None => []
  end.

(** The address of the House of Blues calendar. *)
Definition houseofblues_url : str :=
  u "http://www.houseofblues.com/boston/api/EventCalendar/GetEvents".

(** The parameters of the House of Blues request for a range of dates. *)
Definition houseofblues_params (startDate endDate : str)
  : list (str * json) :=
  [ (u "startDate", JStr startDate);
    (u "endDate", JStr endDate);
    (u "venueIds", JInt 9044);
    (u "limit", JInt 9999);
    (u "offset", JInt 1);
    (u "genre", JStr []);
    (u "artist", JStr []);
    (u "offerType", JStr (u "STANDARD,STANDARD - Priority")) ].

(** Whether an event of a Crossroads calendar is a "music" event. *)
Definition is_music (e : json) : bool :=
  match getitem e (u "category_param") with
  | Ok c => is_str c (u "music")
  | Raise _ => false
  end.

(** The events of one group of a Crossroads calendar. *)
Definition group_events (g : json) : res (list json) :=
  evs <- getitem g (u "events") ;; iter evs.

(** ** Tactics and general lemmas *)

(** Splits a successful [bind] chain into its steps. *)
Ltac bind_ok H :=
  repeat match type of H with
         | bind ?m _ = Ok _ =>
             let E := fresh "E" in
             destruct m eqn:E; cbn [bind] in H; [ | discriminate H ]
         | (let (_, _) := ?p in _) = Ok _ => destruct p
         end.

Lemma as_str_ok (err : exn) (v : json) (s : str) :
  as_str err v = Ok s -> v = JStr s.
Proof. destruct v; simpl; intros H; inversion H; reflexivity. Qed.

Lemma str_eqb_refl (s : str) : str_eqb s s = true.
Proof. induction s; simpl; [ | rewrite N.eqb_refl ]; auto. Qed.

Lemma str_eqb_eq (a b : str) : str_eqb a b = true <-> a = b.
Proof.
  split; [ | intros ->; apply str_eqb_refl ].
  revert b; induction a as [ | x a IH ]; destruct b as [ | y b ]; simpl;
    try discriminate; auto.
  intros H; apply andb_true_iff in H; destruct H as [Hx Hab].
  apply N.eqb_eq in Hx; subst; f_equal; auto.
Qed.

Lemma for_in_app {A S} (l1 l2 : list A) (body : A -> S -> res S) (s : S) :
  for_in (l1 ++ l2) body s = (s' <- for_in l1 body s ;; for_in l2 body s').
Proof.
  revert s; induction l1 as [ | x l1 IH ]; intros s; simpl; auto.
  destruct (body x s); simpl; auto.
Qed.

(** An invariant of the accumulator of a loop holds of its result. *)
Lemma for_in_invariant {A S} (P : S -> Prop) (l : list A)
    (body : A -> S -> res S) :
  (forall x s s', P s -> body x s = Ok s' -> P s') ->
  forall s s', P s -> for_in l body s = Ok s' -> P s'.
Proof.
  intros Hbody; induction l as [ | x l IH ]; simpl; intros s s' Hs H.
  - inversion H; subst; auto.
  - destruct (body x s) eqn:E; simpl in H; [ | discriminate ].
    apply (IH a s'); [ apply (Hbody x s a Hs E) | exact H ].
Qed.

(** A loop whose body raises on one of its items raises. *)
Lemma for_in_raises {A S} (l : list A) (body : A -> S -> res S) (x : A) :
  In x l -> (forall s, exists e, body x s = Raise e) ->
  forall s, exists e, for_in l body s = Raise e.
Proof.
  intros Hin Hx; induction l as [ | y l IH ]; simpl; [ contradiction | ].
  intros s; destruct Hin as [ -> | Hin ].
  - destruct (Hx s) as [e He]; rewrite He; simpl; eauto.
  - destruct (body y s); simpl; eauto.
Qed.

(** ** Event *)

Lemma to_json_ok (ev : Event) (j : dict) :
  to_json ev = Ok j ->
  exists s,
    isoformat (start ev) = Ok s
    /\ j = [ (u "venue", venue ev); (u "bands", JArr (bands ev));
             (u "start", JStr s); (u "link", JStr (link ev));
             (u "soldout", JBool (soldout ev)) ].
Proof.
  unfold to_json; intros H.
  destruct (isoformat (start ev)) as [s | ]; cbn [bind] in H;
    [ | discriminate ].
  inversion H; eauto.
Qed.

(** C9 (the code departs from the claim): an [Event] built without a
    [start] argument carries the time bound when the module was imported,
    whatever the other arguments are; so it differs from the clock of any
    later construction. *)
Theorem Event_default_start_bound_at_import :
  forall (now : datetime) venue0 bands0 link0 soldout0,
    start (Event_init today_at_import venue0 bands0 None link0 soldout0)
    = today_at_import
    /\ (now <> today_at_import ->
        start (Event_init today_at_import venue0 bands0 None link0 soldout0)
        <> now).
Proof.
  intros now v b l s; split; [ reflexivity | ].
  intros Hne; simpl; congruence.
Qed.

(** ** House of Blues *)

(** C10: an item whose [artists] array is empty makes the loop body raise
    [IndexError] (the [pop(0)]), and a result list containing such an item
    makes the whole loop raise: no list of records is returned. *)
Theorem houseofblues_empty_artists_raises :
  forall (i : json),
    getitem i (u "artists") = Ok (JArr []) ->
    (forall events_list,
        houseofblues_item today_at_import i events_list = Raise IndexError)
    /\ (forall items events_list, In i items ->
          exists e,
            for_in items (houseofblues_item today_at_import) events_list = Raise e).
Proof.
  intros i Hart.
  assert (Hitem : forall events_list,
             houseofblues_item today_at_import i events_list = Raise IndexError).
  { intros acc; unfold houseofblues_item; rewrite Hart; reflexivity. }
  split; [ exact Hitem | ].
  intros items acc Hin.
  apply for_in_raises with (x := i); eauto.
Qed.

Lemma houseofblues_support_ok (i a : json) (acc acc' : list json) :
  houseofblues_support i a acc = Ok acc' ->
  exists name title,
    getitem a (u "name") = Ok (JStr name)
    /\ getitem i (u "title") = Ok (JStr title)
    /\ acc' = acc ++ map JStr (filter (differs title) [name]).
Proof.
  unfold houseofblues_support, normalized; intros H.
  destruct (getitem a (u "name")) as [an | ] eqn:Ean; simpl in H;
    [ | discriminate ].
  destruct (as_str AttributeError an) as [sn | ] eqn:Esn; simpl in H;
    [ | discriminate ].
  destruct (getitem i (u "title")) as [t | ] eqn:Et; simpl in H;
    [ | discriminate ].
  destruct (as_str AttributeError t) as [st | ] eqn:Est; simpl in H;
    [ | discriminate ].
  apply as_str_ok in Esn, Est; subst an t.
  exists sn, st. split; [ reflexivity | ]. split; [ reflexivity | ].
  simpl; unfold differs.
  destruct (negb (str_eqb (encode_ascii_ignore (lower sn))
                          (encode_ascii_ignore (lower st))));
    simpl in *; inversion H; subst; auto using app_nil_r.
Qed.

Lemma houseofblues_band_loop (i : json) (rest : list json) :
  forall acc bands,
    for_in rest (houseofblues_support i) acc = Ok bands ->
    exists names title,
      mapM artist_name rest = Ok names
      /\ (rest <> [] -> getitem i (u "title") = Ok (JStr title))
      /\ bands = acc ++ map JStr (filter (differs title) names).
Proof.
  induction rest as [ | a rest IH ]; intros acc bands H; simpl in H.
  - inversion H; subst. exists [], []. simpl.
    rewrite app_nil_r; repeat split; congruence.
  - destruct (houseofblues_support i a acc) as [acc1 | ] eqn:Estep;
      simpl in H; [ | discriminate ].
    apply houseofblues_support_ok in Estep.
    destruct Estep as (sn & st & Ean & Et & Hacc1).
    destruct (IH _ _ H) as (names & title & Hnames & Htitle & Hbands).
    exists (sn :: names), st.
    split.
    { change (mapM artist_name (a :: rest))
        with (b <- artist_name a ;; bs <- mapM artist_name rest ;;
              Ok (b :: bs)).
      rewrite Hnames. unfold artist_name. rewrite Ean. reflexivity. }
    split; [ intros _; exact Et | ].
    assert (Hsame : filter (differs title) names = filter (differs st) names).
    { destruct rest as [ | b rest' ].
      - simpl in Hnames; inversion Hnames; reflexivity.
      - assert (Ht : Ok (JStr st) = Ok (JStr title))
          by (rewrite <- Htitle; [ symmetry; exact Et | discriminate ]).
        inversion Ht; reflexivity. }
    rewrite Hbands, Hacc1, Hsame. rewrite <- app_assoc, <- map_app.
    rewrite <- filter_app. reflexivity.
Qed.

(** C5: when the loop body yields a record for an item, the item's
    [artists] array has a first artist, and the record's [bands] is that
    artist's name followed by the names of the remaining artists that
    differ from the title after lower-casing and dropping what is not
    ASCII; for the title "Lucy Dacus" and the artists "Lucy Dacus", "And The
    Kids" it is ["Lucy Dacus", "And The Kids"]. *)
Theorem houseofblues_bands :
  forall (i : json) (events_list out : list dict),
    houseofblues_item today_at_import i events_list = Ok out ->
    exists first rest headliner names title record,
      getitem i (u "artists") = Ok (JArr (first :: rest))
      /\ getitem first (u "name") = Ok headliner
      /\ mapM artist_name rest = Ok names
      /\ (rest <> [] -> getitem i (u "title") = Ok (JStr title))
      /\ out = events_list ++ [record]
      /\ assoc (u "bands") record
         = Some (JArr (headliner
                       :: map JStr (filter (differs title) names)))
      /\ (getitem i (u "title") = Ok (JStr (u "Lucy Dacus")) ->
          getitem i (u "artists")
          = Ok (JArr [ JObj [(u "name", JStr (u "Lucy Dacus"))];
                       JObj [(u "name", JStr (u "And The Kids"))] ]) ->
          assoc (u "bands") record
          = Some (JArr [JStr (u "Lucy Dacus"); JStr (u "And The Kids")])).
Proof.
  intros i acc out H. unfold houseofblues_item in H.
  destruct (getitem i (u "artists")) as [arts | ] eqn:Earts; simpl in H;
    [ | discriminate ].
  destruct (pop0 arts) as [[first rest] | ] eqn:Epop; simpl in H;
    [ | discriminate ].
  destruct (getitem first (u "name")) as [h | ] eqn:Eh; simpl in H;
    [ | discriminate ].
  match type of H with
  | bind ?loop _ = _ => destruct loop as [bands | ] eqn:Eloop; simpl in H;
                        [ | discriminate ]
  end.
  apply houseofblues_band_loop in Eloop.
  destruct Eloop as (names & title & Hnames & Htitle & Hbands).
  bind_ok H.
  inversion H; subst out; clear H.
  match goal with
  | E : to_json _ = Ok _ |- _ => apply to_json_ok in E; destruct E as (s & _ & Hj)
  end.
  assert (Harts : arts = JArr (first :: rest)).
  { destruct arts as [ | | | | l | ]; simpl in Epop; try discriminate.
    destruct l; inversion Epop; reflexivity. }
  subst arts.
  assert (Hrecord : assoc (u "bands") a5
                    = Some (JArr (h :: map JStr (filter (differs title) names)))).
  { subst a5 bands. destruct (truthy a4); reflexivity. }
  exists first, rest, h, names, title, a5.
  repeat split; try assumption; try reflexivity.
  intros Ht Ha. rewrite Hrecord. inversion Ha; subst first rest.
  assert (Htt : title = u "Lucy Dacus").
  { assert (Hx : Ok (JStr title) = Ok (JStr (u "Lucy Dacus")))
      by (rewrite <- Ht; symmetry; apply Htitle; discriminate).
    inversion Hx; reflexivity. }
  subst title. vm_compute in Eh; inversion Eh; subst h.
  vm_compute in Hnames; inversion Hnames; subst names.
  reflexivity.
Qed.

(** ** Crossroads venues *)

(** What [crossroads_event] needs to yield a record, and the record. *)
Lemma crossroads_event_music (e : json)
    (events_list : list dict) vt v bands_ bs d ps so s :
  getitem e (u "category_param") = Ok (JStr (u "music")) ->
  getitem e (u "venue") = Ok v ->
  getitem v (u "title") = Ok vt ->
  crossroads_bands e = Ok bands_ ->
  getitem e (u "tz_adjusted_begin_date") = Ok (JStr bs) ->
  dateutil_parse bs = Ok d ->
  getitem e (u "permalink") = Ok (JStr ps) ->
  getitem e (u "sold_out") = Ok so ->
  isoformat d = Ok s ->
  crossroads_event today_at_import e events_list
  = Ok (events_list
        ++ [[ (u "venue", vt); (u "bands", JArr bands_); (u "start", JStr s);
              (u "link",
               JStr (u "http://events.crossroadspresents.com" ++ ps));
              (u "soldout", JBool (truthy so)) ]]).
Proof.
  intros Hc Hv Hvt Hb Hbs Hd Hp Hso Hiso.
  unfold crossroads_event. rewrite Hc.
  replace (is_str (JStr (u "music")) (u "music")) with true by reflexivity.
  cbn [bind]. rewrite Hv; cbn [bind]. rewrite Hvt; cbn [bind].
  unfold crossroads_bands in Hb.
  destruct (getitem e (u "artists")) as [a | ] eqn:Ea; cbn [bind] in Hb;
    [ | discriminate ].
  cbn [bind]. rewrite Hb; cbn [bind].
  rewrite Hbs; cbn [bind as_str]. rewrite Hd; cbn [bind].
  rewrite Hp; cbn [bind as_str]. rewrite Hso; cbn [bind].
  unfold to_json.
  destruct (truthy so); cbn [start set_soldout Event_init];
    rewrite Hiso; reflexivity.
Qed.

Lemma crossroads_event_inv (e : json) (events_list out : list dict) :
  getitem e (u "category_param") = Ok (JStr (u "music")) ->
  crossroads_event today_at_import e events_list = Ok out ->
  exists bands_ record,
    crossroads_bands e = Ok bands_
    /\ assoc (u "bands") record = Some (JArr bands_)
    /\ out = events_list ++ [record].
Proof.
  intros Hc H. unfold crossroads_event in H. rewrite Hc in H.
  cbn [bind] in H.
  replace (is_str (JStr (u "music")) (u "music")) with true in H
    by reflexivity.
  destruct (getitem e (u "venue")) as [v | ]; cbn [bind] in H;
    [ | discriminate ].
  destruct (getitem v (u "title")) as [vt | ]; cbn [bind] in H;
    [ | discriminate ].
  unfold crossroads_bands.
  destruct (getitem e (u "artists")) as [a | ]; cbn [bind] in H |- *;
    [ | discriminate ].
  match type of H with
  | bind ?m _ = _ => destruct m as [bands_ | ] eqn:Eb; cbn [bind] in H;
                     [ | discriminate ]
  end.
  bind_ok H.
  match goal with
  | E : to_json _ = Ok _ |- _ =>
      apply to_json_ok in E; destruct E as (s & _ & Hj)
  end.
  inversion H; subst out; clear H.
  exists bands_. eexists. split; [ reflexivity | ]. split; [ | reflexivity ].
  subst. match goal with
         | |- context [truthy ?so] => destruct (truthy so)
         end; reflexivity.
Qed.

(** A response holding one group of one event. *)
Lemma crossroads_parse_single (e : json) :
  crossroads_parse today_at_import
    (JObj [(u "event_groups", JArr [JObj [(u "events", JArr [e])]])])
  = crossroads_event today_at_import e [].
Proof.
  unfold crossroads_parse.
  replace (getitem (JObj [(u "event_groups",
                           JArr [JObj [(u "events", JArr [e])]])])
                   (u "event_groups"))
    with (Ok (JArr [JObj [(u "events", JArr [e])]])) by reflexivity.
  cbn [bind iter for_in].
  replace (getitem (JObj [(u "events", JArr [e])]) (u "events"))
    with (Ok (JArr [e])) by reflexivity.
  cbn [bind iter for_in].
  destruct (crossroads_event today_at_import e []); reflexivity.
Qed.

(** C6: a "music" event that yields a record has, as [bands], the titles of
    its artists when the [artists] array is not empty and the one-element
    list of its own title when it is empty; and the quoted one-event
    response yields exactly one record, with venue "Paradise Rock Club",
    bands ["Show"], a link ending in "/events/x" and soldout false
    (provided the date parser reads the timestamp and it can be
    printed). *)
Theorem crossroads_music_bands :
  forall (e : json) (events_list out : list dict),
    getitem e (u "category_param") = Ok (JStr (u "music")) ->
    crossroads_event today_at_import e events_list = Ok out ->
    (exists record,
        out = events_list ++ [record]
        /\ forall artists,
            getitem e (u "artists") = Ok (JArr artists) ->
            match artists with
            | _ :: _ =>
                exists titles,
                  mapM (fun x => getitem x (u "title")) artists = Ok titles
                  /\ assoc (u "bands") record = Some (JArr titles)
            | [] =>
                exists title,
                  getitem e (u "title") = Ok title
                  /\ assoc (u "bands") record = Some (JArr [title])
            end)
    /\ (forall d s,
          dateutil_parse (u "2018-03-02T18:00:00-05:00") = Ok d ->
          isoformat d = Ok s ->
          exists record l,
            crossroads_parse today_at_import Sample.crossroads_month
            = Ok [record]
            /\ assoc (u "venue") record
               = Some (JStr (u "Paradise Rock Club"))
            /\ assoc (u "bands") record = Some (JArr [JStr (u "Show")])
            /\ assoc (u "link") record = Some (JStr l)
            /\ endswith (u "/events/x") l = true
            /\ assoc (u "soldout") record = Some (JBool false)).
Proof.
  intros e acc out Hc H. split.
  - destruct (crossroads_event_inv _ _ _ Hc H)
      as (bands_ & record & Hb & Hrec & Hout).
    exists record. split; [ exact Hout | ].
    intros artists Ha. unfold crossroads_bands in Hb. rewrite Ha in Hb.
    cbn [bind] in Hb. destruct artists as [ | x xs ].
    + cbn [truthy] in Hb.
      destruct (getitem e (u "title")) as [t | ]; cbn [bind] in Hb;
        [ | discriminate ].
      inversion Hb; subst. eauto.
    + cbn [truthy bind iter] in Hb. eauto.
  - intros d s Hd Hiso. unfold Sample.crossroads_month.
    rewrite crossroads_parse_single.
    erewrite crossroads_event_music;
      [ | reflexivity | reflexivity | reflexivity | reflexivity
        | reflexivity | exact Hd | reflexivity | reflexivity | exact Hiso ].
    eexists. eexists.
    split; [ reflexivity | ].
    repeat split; reflexivity.
Qed.

(** ** The Middle East *)

Lemma middleeast_loop_extracted (items : list json) :
  forall events_list,
    middleeast_loop today_at_import items events_list
    = events_list ++ extracted items.
Proof.
  induction items as [ | i items IH ]; intros acc; simpl.
  - symmetry; apply app_nil_r.
  - destruct (middleeast_item today_at_import i); rewrite IH; simpl; auto.
    rewrite <- app_assoc; reflexivity.
Qed.

Lemma extracted_app (l1 l2 : list json) :
  extracted (l1 ++ l2)
  = extracted l1 ++ extracted l2.
Proof. apply flat_map_app. Qed.

(** C2: once the array literal is found and decoded to a list of items,
    [middleeast] returns (it does not raise) the records of the items whose
    extraction succeeds, in order; an item whose extraction raises, whatever
    the exception, is the only one missing: the result is that of the list
    without it; in a batch of five whose third item has a venue fragment the
    pattern does not match, the result is the four records of items 1, 2, 4
    and 5. *)
Theorem middleeast_drops_only_failing_items :
  forall (data g : str) (items : list json),
    re_search_events data = Some g ->
    demjson_decode g = Ok (JArr items) ->
    middleeast today_at_import data = Ok (extracted items)
    /\ (forall before i after e,
          items = before ++ i :: after ->
          middleeast_item today_at_import i = Raise e ->
          middleeast today_at_import data
          = Ok (middleeast_loop today_at_import (before ++ after) []))
    /\ (forall i1 i2 i3 i4 i5 j1 j2 j4 j5 fragment,
          items = [i1; i2; i3; i4; i5] ->
          middleeast_item today_at_import i1 = Ok j1 ->
          middleeast_item today_at_import i2 = Ok j2 ->
          getitem i3 (u "venue") = Ok (JStr fragment) ->
          re_search_div fragment = None ->
          middleeast_item today_at_import i4 = Ok j4 ->
          middleeast_item today_at_import i5 = Ok j5 ->
          middleeast today_at_import data = Ok [j1; j2; j4; j5]).
Proof.
  intros data g items Hs Hd.
  assert (Hm : middleeast today_at_import data = Ok (extracted items)).
  { unfold middleeast. rewrite Hs, Hd. cbn [bind iter].
    rewrite middleeast_loop_extracted. reflexivity. }
  split; [ exact Hm | ]. split.
  - intros before i after e -> Hi. rewrite Hm.
    rewrite middleeast_loop_extracted, !extracted_app. simpl.
    unfold extracted at 2. simpl. rewrite Hi. reflexivity.
  - intros i1 i2 i3 i4 i5 j1 j2 j4 j5 fragment -> H1 H2 H3 Hf H4 H5.
    rewrite Hm. unfold extracted. simpl.
    assert (Hi3 : middleeast_item today_at_import i3 = Raise AttributeError).
    { unfold middleeast_item. rewrite H3. cbn [bind as_str].
      rewrite Hf. reflexivity. }
    rewrite H1, H2, Hi3, H4, H5. reflexivity.
Qed.

(** ** Bowery Boston *)

(** C8 (the code departs from the claim): a show item without the
    [list-location] paragraph does not yield a record; processing it
    raises. *)
Theorem bowery_missing_location_raises :
  forall (e : node),
    find e (u "p") [u "list-location"] = None ->
    exists x, bowery_event_process today_at_import e = Raise x.
Proof.
  intros e Hloc. unfold bowery_event_process.
  match goal with
  | |- context [bind ?m _] => destruct m; cbn [bind]; [ | eauto ]
  end.
  match goal with
  | |- context [bind ?m _] => destruct m; cbn [bind]; [ | eauto ]
  end.
  rewrite Hloc. simpl. eauto.
Qed.

(** ** The month loop *)

Lemma fetch_into_contribution (w : world) (ap : str * parser)
    (acc : list dict) (t : list request) :
  fetch_into w (fst ap) (snd ap) acc t
  = (l <- contribution w ap ;; Ok (acc ++ l), t ++ [mkrequest (fst ap) []]).
Proof.
  unfold fetch_into, contribution, bindM, requests_get, lift, ret.
  destruct (web w (mkrequest (fst ap) [])) as [r | e]; cbn [bind];
    [ | reflexivity ].
  destruct (status_code r =? 200);
    [ | cbn [bind]; rewrite app_nil_r; reflexivity ].
  destruct (snd ap r); reflexivity.
Qed.

Lemma gather_app (w : world) (l1 l2 : list (str * parser)) :
  forall acc t,
    gather w (l1 ++ l2) acc t
    = (acc' <-- gather w l1 acc ;; gather w l2 acc') t.
Proof.
  unfold gather. induction l1 as [ | ap l1 IH ]; intros acc t.
  - reflexivity.
  - cbn [app for_inM]. unfold bindM in *.
    destruct (fetch_into w (fst ap) (snd ap) acc t) as [[acc1 | e] t1].
    + apply IH.
    + reflexivity.
Qed.

(** The value a run of [gather] ends with. *)
Lemma gather_value (w : world) (reqs : list (str * parser)) :
  forall acc t,
    fst (gather w reqs acc t)
    = (cs <- mapM (contribution w) reqs ;; Ok (acc ++ concat cs)).
Proof.
  unfold gather. induction reqs as [ | ap reqs IH ]; intros acc t.
  - cbn. rewrite app_nil_r. reflexivity.
  - cbn [for_inM mapM]. unfold bindM.
    rewrite fetch_into_contribution.
    destruct (contribution w ap) as [l | e]; cbn [bind]; [ | reflexivity ].
    rewrite IH. destruct (mapM (contribution w) reqs); cbn [bind concat];
      [ rewrite app_assoc | ]; reflexivity.
Qed.

(** The requests a run of [gather] has sent when it returns. *)
Lemma gather_trace (w : world) (reqs : list (str * parser)) :
  forall acc t out t',
    gather w reqs acc t = (Ok out, t') ->
    t' = t ++ map (fun ap => mkrequest (fst ap) []) reqs.
Proof.
  unfold gather. induction reqs as [ | ap reqs IH ]; intros acc t out t' H.
  - cbn in H. inversion H. rewrite app_nil_r. reflexivity.
  - cbn [for_inM] in H. unfold bindM in H.
    rewrite fetch_into_contribution in H.
    destruct (contribution w ap) as [l | e]; cbn [bind] in H;
      [ | discriminate ].
    apply IH in H. rewrite H, <- app_assoc. reflexivity.
Qed.

Lemma monthly_cals_body_gather (w : world) (k : Z) (cur : Z * Z)
    (acc : list dict) (t : list request) :
  monthly_cals_body today_at_import w k (cur, acc) t
  = (acc' <-- gather w (period_requests k (next_month cur)) acc ;;
     ret (next_month cur, acc')) t.
Proof.
  unfold monthly_cals_body, gather, period_requests.
  cbn [for_inM fst snd]. unfold bindM, ret.
  fold mideast_parser. fold crossroads_parser.
  destruct (fetch_into w _ mideast_parser acc t) as [[a1 | e1] t1];
    [ | reflexivity ].
  destruct (fetch_into w _ crossroads_parser a1 t1) as [[a2 | e2] t2];
    [ | reflexivity ].
  destruct (fetch_into w _ crossroads_parser a2 t2) as [[a3 | e3] t3];
    reflexivity.
Qed.

Lemma monthly_loop_gather (w : world) (ks : list Z) :
  forall cur acc t,
    (st <-- for_inM ks (monthly_cals_body today_at_import w) (cur, acc) ;;
     ret (snd st)) t
    = gather w (loop_requests ks cur) acc t.
Proof.
  induction ks as [ | k ks IH ]; intros cur acc t.
  - reflexivity.
  - cbn [for_inM loop_requests]. rewrite gather_app.
    unfold bindM in *. rewrite monthly_cals_body_gather.
    unfold bindM, ret.
    destruct (gather w (period_requests k (next_month cur)) acc t)
      as [[acc1 | e] t1]; [ | reflexivity ].
    apply IH.
Qed.

Lemma replace_day_first (d : datetime) :
  exists d', replace_day d 1 = Ok d' /\ month d' = month d
             /\ year d' = year d.
Proof.
  unfold replace_day.
  assert (H : (1 <=? days_in_month (year d) (month d)) = true).
  { unfold days_in_month.
    repeat match goal with |- context [if ?c then _ else _] => destruct c end;
      reflexivity. }
  rewrite H. cbn [andb Z.leb Z.compare]. eexists; repeat split.
Qed.

(** The loop sends the requests of [monthly_requests], in order. *)
Lemma monthly_cals_gather (w : world) (t : list request) :
  monthly_cals today_at_import w t = gather w (monthly_requests w) [] t.
Proof.
  unfold monthly_cals, monthly_requests.
  destruct (replace_day_first (today w)) as (d' & Hd & Hm & Hy).
  rewrite Hd. unfold bindM at 1, lift. rewrite Hm, Hy.
  apply monthly_loop_gather.
Qed.

Lemma next_month_calendar (cur : Z * Z) :
  1 <= fst cur <= 12 ->
  next_month cur = calendar_succ cur /\ 1 <= fst (calendar_succ cur) <= 12.
Proof.
  destruct cur as [m y]; unfold next_month, calendar_succ; cbn [fst snd].
  intros Hm. destruct (Z.eqb_spec m 12) as [-> | Hne].
  - split; [ reflexivity | cbn; lia ].
  - destruct (Z.gtb_spec (m + 1) 12); [ lia | ]. split; [ reflexivity | ].
    cbn [fst]; lia.
Qed.

Lemma loop_requests_months (ks : list Z) :
  forall cur,
    1 <= fst cur <= 12 ->
    map request_of (loop_requests ks cur)
    = flat_map (fun km => [ mkrequest (mideast_url (snd km)) [];
                            mkrequest (paradise_url (fst km)) [];
                            mkrequest (brighton_url (fst km)) [] ])
               (combine ks (months_from cur (length ks))).
Proof.
  induction ks as [ | k ks IH ]; intros cur Hcur; [ reflexivity | ].
  destruct (next_month_calendar cur Hcur) as [Hnext Hrange].
  cbn [loop_requests length months_from combine flat_map].
  rewrite map_app, Hnext, (IH _ Hrange). reflexivity.
Qed.

(** C7: a run of the month loop that returns has sent the requests of
    exactly twelve turns; the (month, year) pairs in the addresses of the
    Middle East requests are the twelve calendar months that follow the
    month of today, each the calendar successor of the one before, December
    being followed by January of the next year. *)
Theorem monthly_cals_months :
  forall (w : world) (t t' : list request) (out : list dict),
    valid_datetime (today w) ->
    monthly_cals today_at_import w t = (Ok out, t') ->
    length range12 = 12%nat
    /\ t' = t ++ flat_map
                   (fun km => [ mkrequest (mideast_url (snd km)) [];
                                mkrequest (paradise_url (fst km)) [];
                                mkrequest (brighton_url (fst km)) [] ])
                   (combine range12
                      (months_from (month (today w), year (today w)) 12)).
Proof.
  intros w t t' out Hvalid H. split; [ reflexivity | ].
  rewrite monthly_cals_gather in H. apply gather_trace in H.
  rewrite H. f_equal. unfold monthly_requests.
  apply (loop_requests_months range12).
  cbn [fst]. unfold valid_datetime in Hvalid. tauto.
Qed.

Lemma mapM_app {A B} (f : A -> res B) (l1 l2 : list A) :
  mapM f (l1 ++ l2)
  = (bs1 <- mapM f l1 ;; bs2 <- mapM f l2 ;; Ok (bs1 ++ bs2)).
Proof.
  induction l1 as [ | a l1 IH ]; cbn [app mapM bind].
  - destruct (mapM f l2); reflexivity.
  - destruct (f a); cbn [bind]; [ | reflexivity ]. rewrite IH.
    destruct (mapM f l1); cbn [bind]; [ | reflexivity ].
    destruct (mapM f l2); reflexivity.
Qed.

(** A request that adds nothing can be left out of the list. *)
Lemma gather_value_skip (w : world) (l1 l2 : list (str * parser))
    (ap : str * parser) (acc : list dict) (t : list request) :
  contribution w ap = Ok [] ->
  fst (gather w (l1 ++ ap :: l2) acc t) = fst (gather w (l1 ++ l2) acc t).
Proof.
  intros Hap. rewrite !gather_value, !mapM_app. cbn [mapM]. rewrite Hap.
  destruct (mapM (contribution w) l1); cbn [bind]; [ | reflexivity ].
  destruct (mapM (contribution w) l2); cbn [bind]; [ | reflexivity ].
  rewrite !concat_app. reflexivity.
Qed.

Lemma without_nth {A} (l1 l2 : list A) (x : A) :
  firstn (length l1) (l1 ++ x :: l2) ++ skipn (S (length l1)) (l1 ++ x :: l2)
  = l1 ++ l2.
Proof.
  induction l1 as [ | a l1 IH ]; [ reflexivity | ].
  cbn [length app firstn]. change (skipn (S (S (length l1))) (a :: l1 ++ x :: l2))
    with (skipn (S (length l1)) (l1 ++ x :: l2)).
  cbn [app]. f_equal. exact IH.
Qed.

(** C3: when the answer to one of the requests of the month loop has a
    status other than 200, fetching it adds no record and raises nothing;
    what the loop returns is the records the other requests add, in order
    (or the first exception one of them raises); and what another request
    adds depends on its own answer only, so it is the same on a web that
    differs in the answer to the failed request alone. *)
Theorem monthly_cals_skips_failed_request :
  forall (w : world) (n : nat) (ap : str * parser) (r : response)
         (t : list request),
    nth_error (monthly_requests w) n = Some ap ->
    web w (mkrequest (fst ap) []) = Ok r ->
    status_code r <> 200 ->
    contribution w ap = Ok []
    /\ (forall events_list t0,
          fetch_into w (fst ap) (snd ap) events_list t0
          = (Ok events_list, t0 ++ [mkrequest (fst ap) []]))
    /\ fst (monthly_cals today_at_import w t)
       = (cs <- mapM (contribution w)
                  (firstn n (monthly_requests w)
                   ++ skipn (S n) (monthly_requests w)) ;;
          Ok (concat cs))
    /\ (forall (w' : world) (ap' : str * parser),
          (forall q, url q <> fst ap -> web w' q = web w q) ->
          fst ap' <> fst ap ->
          contribution w' ap' = contribution w ap').
Proof.
  intros w n ap r t Hn Hweb Hstatus.
  assert (Hap : contribution w ap = Ok []).
  { unfold contribution. rewrite Hweb. cbn [bind].
    destruct (Z.eqb_spec (status_code r) 200); [ contradiction | ].
    reflexivity. }
  split; [ exact Hap | ]. split; [ | split ].
  - intros acc t0. rewrite fetch_into_contribution, Hap. cbn [bind].
    rewrite app_nil_r. reflexivity.
  - rewrite monthly_cals_gather.
    destruct (nth_error_split _ _ Hn) as (l1 & l2 & Heq & Hlen).
    rewrite Heq at 1. rewrite gather_value_skip by exact Hap.
    rewrite gather_value. rewrite Heq. subst n. rewrite without_nth.
    reflexivity.
  - intros w' ap' Hagree Hne. unfold contribution.
    rewrite Hagree by exact Hne. reflexivity.
Qed.

(** ** The aggregator *)

Lemma bowery_shows_trace (w : world) (t : list request) :
  snd (bowery_shows today_at_import w t) = t ++ [bowery_request].
Proof.
  unfold bowery_shows, bindM, requests_get, lift. fold bowery_request.
  destruct (web w bowery_request); reflexivity.
Qed.

(** The parts of a run of [main] that returns. *)
Lemma main_decomposed (w : world) (t t' : list request) (out : list dict) :
  main today_at_import w t = (Ok out, t') ->
  exists html monthly,
    bowery_shows today_at_import w t = (Ok html, t ++ [bowery_request])
    /\ mapM (contribution w) (monthly_requests w) = Ok monthly
    /\ out = html ++ concat monthly
    /\ t' = t ++ bowery_request :: map request_of (monthly_requests w).
Proof.
  intros H. unfold main in H. unfold bindM at 1 in H.
  pose proof (bowery_shows_trace w t) as Htrace.
  destruct (bowery_shows today_at_import w t) as [[html | e] t1];
    [ | discriminate ].
  cbn [snd] in Htrace. subst t1. unfold bindM, ret in H.
  pose proof (gather_value w (monthly_requests w) [] (t ++ [bowery_request]))
    as Hvalue.
  rewrite <- monthly_cals_gather in Hvalue.
  destruct (monthly_cals today_at_import w (t ++ [bowery_request]))
    as [[l | e] t2] eqn:Hm; [ | discriminate ].
  inversion H; subst out t'; clear H.
  rewrite monthly_cals_gather in Hm. apply gather_trace in Hm.
  cbn [fst] in Hvalue.
  destruct (mapM (contribution w) (monthly_requests w)) as [cs | ];
    cbn [bind] in Hvalue; [ | discriminate ].
  inversion Hvalue; subst l.
  exists html, cs. repeat split.
  rewrite Hm, <- app_assoc. reflexivity.
Qed.

(** C4 (as amended): what [main] returns is the records of the Bowery
    calendar followed by the records of the month loop, which come month by
    month: for each of the twelve months those of the Middle East, then
    those of the Paradise Rock Club, then those of the Brighton Music Hall;
    these are all the requests sent: the House of Blues is not asked. *)
Theorem main_order :
  forall (w : world) (t t' : list request) (out : list dict),
    main today_at_import w t = (Ok out, t') ->
    exists html monthly,
      bowery_shows today_at_import w t = (Ok html, t ++ [bowery_request])
      /\ mapM (contribution w) (monthly_requests w) = Ok monthly
      /\ out = html ++ concat monthly
      /\ t' = t ++ bowery_request :: map request_of (monthly_requests w).
Proof.
  intros w t t' out H. apply main_decomposed. exact H.
Qed.

(** ** ISO 8601 timestamps *)

Lemma in_range_nat (P : Z -> bool) (bound : Z) :
  forallb (fun k => P (Z.of_nat k)) (seq 0 (Z.to_nat bound)) = true ->
  forall n, 0 <= n < bound -> P n = true.
Proof.
  intros Hall n Hn. rewrite forallb_forall in Hall.
  rewrite <- (Z2Nat.id n) by lia. apply Hall. apply in_seq. lia.
Qed.

Lemma pad2_two_digits (lo hi n : Z) (rest : str) :
  0 <= n <= 99 -> lo <= n <= hi ->
  two_digits lo hi (pad_int 2 n ++ rest) = Some rest.
Proof.
  intros Hn Hlohi.
  assert (Hpad : str_eqb (pad_int 2 n)
                         [Z.to_N (48 + n / 10); Z.to_N (48 + n mod 10)]
                 = true).
  { apply (in_range_nat
             (fun n => str_eqb (pad_int 2 n)
                         [Z.to_N (48 + n / 10); Z.to_N (48 + n mod 10)])
             100); [ vm_compute; reflexivity | lia ]. }
  apply str_eqb_eq in Hpad. rewrite Hpad. cbn [app two_digits].
  pose proof (Z.div_mod n 10 ltac:(lia)) as Hdm.
  assert (Hr : 0 <= n mod 10 <= 9) by (pose proof (Z.mod_pos_bound n 10); lia).
  assert (Hq : 0 <= n / 10 <= 9) by lia.
  assert (Hv : 10 * digit_val (Z.to_N (48 + n / 10))
               + digit_val (Z.to_N (48 + n mod 10)) = n).
  { unfold digit_val. rewrite !Z2N.id by lia. lia. }
  rewrite Hv.
  assert (Hd1 : is_digit (Z.to_N (48 + n / 10)) = true).
  { unfold is_digit. apply andb_true_iff; split; apply N.leb_le; lia. }
  assert (Hd2 : is_digit (Z.to_N (48 + n mod 10)) = true).
  { unfold is_digit. apply andb_true_iff; split; apply N.leb_le; lia. }
  rewrite Hd1, Hd2. cbn [andb].
  destruct (Z.leb_spec lo n); [ | lia ].
  destruct (Z.leb_spec n hi); [ | lia ]. reflexivity.
Qed.

Lemma pad4_four_digits (y : Z) (rest : str) :
  0 <= y <= 9999 -> four_digits (pad_int 4 y ++ rest) = Some rest.
Proof.
  intros Hy.
  assert (Hpad : match pad_int 4 y with
                 | [a; b; c; d] =>
                     is_digit a && is_digit b && is_digit c && is_digit d
                 | _ => false
                 end = true).
  { apply (in_range_nat
             (fun y => match pad_int 4 y with
                       | [a; b; c; d] =>
                           is_digit a && is_digit b && is_digit c
                           && is_digit d
                       | _ => false
                       end) 10000); [ vm_compute; reflexivity | lia ]. }
  destruct (pad_int 4 y) as [ | a [ | b [ | c [ | d [ | ? ? ]]]]];
    try discriminate.
  cbn [app four_digits]. rewrite Hpad. reflexivity.
Qed.

Lemma dec_aux_digits (fuel : nat) :
  forall n acc,
    forallb is_digit acc = true ->
    forallb is_digit (dec_aux fuel n acc) = true.
Proof.
  induction fuel as [ | fuel IH ]; intros n acc Hacc; cbn [dec_aux]; auto.
  assert (Hd : forallb is_digit ((48 + n mod 10)%N :: acc) = true).
  { cbn [forallb]. rewrite Hacc, andb_true_r. unfold is_digit.
    pose proof (N.mod_upper_bound n 10 ltac:(lia)) as Hr.
    set (r := (n mod 10)%N) in *. clearbody r.
    apply andb_true_iff; split; apply N.leb_le; lia. }
  destruct (n / 10 =? 0)%N; auto.
Qed.

Lemma dec_aux_cons (fuel : nat) :
  forall n acc, exists c rest, dec_aux (S fuel) n acc = c :: rest.
Proof.
  induction fuel as [ | fuel IH ]; intros n acc.
  - cbn [dec_aux]. destruct (n / 10 =? 0)%N; eauto.
  - change (dec_aux (S (S fuel)) n acc)
      with (if (n / 10 =? 0)%N then (48 + n mod 10)%N :: acc
            else dec_aux (S fuel) (n / 10)%N ((48 + n mod 10)%N :: acc)).
    destruct (n / 10 =? 0)%N; eauto.
Qed.

(** A padded number that is not negative is a digit followed by digits. *)
Lemma pad_int_digits (w : nat) (z : Z) :
  0 <= z ->
  exists c rest,
    pad_int w z = c :: rest /\ is_digit c = true
    /\ forallb is_digit rest = true.
Proof.
  intros Hz. unfold pad_int. destruct (Z.ltb_spec z 0); [ lia | ].
  assert (Hall : forallb is_digit
                   (repeat 48%N (w - length (str_of_N (Z.abs_N z)))
                    ++ str_of_N (Z.abs_N z)) = true).
  { rewrite forallb_app. apply andb_true_iff; split.
    - induction (w - length (str_of_N (Z.abs_N z)))%nat; cbn; auto.
    - apply dec_aux_digits. reflexivity. }
  destruct (dec_aux_cons (N.to_nat (N.log2 (Z.abs_N z))) (Z.abs_N z) [])
    as (c & rest & Hc).
  fold (str_of_N (Z.abs_N z)) in Hc.
  destruct (repeat 48%N (w - length (str_of_N (Z.abs_N z)))
            ++ str_of_N (Z.abs_N z)) as [ | c' rest' ] eqn:E.
  - rewrite Hc in E. destruct (repeat _ _); discriminate.
  - cbn [forallb] in Hall. apply andb_true_iff in Hall. eauto.
Qed.

Lemma dropwhile_digits (ds z : str) :
  forallb is_digit ds = true ->
  match z with [] => True | c :: _ => is_digit c = false end ->
  dropwhile is_digit (ds ++ z) = z.
Proof.
  intros Hds Hz. induction ds as [ | d ds IH ]; cbn [app dropwhile].
  - destruct z as [ | c z ]; cbn [dropwhile]; [ | rewrite Hz ]; reflexivity.
  - cbn [forallb] in Hds. apply andb_true_iff in Hds. destruct Hds as [-> Hds].
    auto.
Qed.

Lemma literal_cons (c : N) (rest : str) : literal c (c :: rest) = Some rest.
Proof. unfold literal. rewrite N.eqb_refl. reflexivity. Qed.

Lemma utcoffset_range (d : datetime) (o : Z) :
  utcoffset d = Ok (Some o) -> -86400 < o < 86400.
Proof.
  unfold utcoffset. destruct (tzinfo d) as [t | ]; [ | discriminate ].
  match goal with
  | |- (if ?c then _ else _) = _ -> _ => destruct c eqn:E; [ | discriminate ]
  end.
  intros H; inversion H; subst o.
  apply andb_true_iff in E. destruct E as [E1 E2].
  apply Z.ltb_lt in E1, E2. lia.
Qed.

(** The text of an offset within a day is a zone designator, and starts
    with a sign unless it is empty. *)
Lemma format_offset_zone (off : option Z) :
  match off with Some o => -86400 < o < 86400 | None => True end ->
  zone (format_offset off) = Some []
  /\ match format_offset off with
     | [] => True
     | c :: _ => c = 43%N \/ c = 45%N
     end.
Proof.
  destruct off as [o | ]; [ | split; [ reflexivity | exact I ] ].
  intros Ho. unfold format_offset.
  set (a := Z.abs o).
  assert (Ha : 0 <= a < 86400) by (unfold a; lia).
  assert (Hh : 0 <= a / 3600 <= 23) by (Z.div_mod_to_equations; lia).
  assert (Hm : 0 <= a mod 3600 / 60 <= 59) by (Z.div_mod_to_equations; lia).
  assert (Hs : 0 <= a mod 60 <= 59) by (Z.div_mod_to_equations; lia).
  cbn [app]. split.
  - assert (Hzone : forall sign,
               sign = 43%N \/ sign = 45%N ->
               zone (sign :: pad_int 2 (a / 3600)
                     ++ 58%N :: pad_int 2 (a mod 3600 / 60)
                     ++ (if a mod 60 =? 0 then []
                         else 58%N :: pad_int 2 (a mod 60)))
               = Some []).
    { intros sign Hsign. unfold zone.
      replace ((sign =? 90)%N) with false
        by (destruct Hsign; subst; reflexivity).
      replace (((sign =? 43) || (sign =? 45))%N) with true
        by (destruct Hsign; subst; reflexivity).
      rewrite pad2_two_digits by lia. cbn [andthen].
      rewrite literal_cons. cbn [andthen].
      rewrite pad2_two_digits by lia. cbn [andthen].
      destruct (a mod 60 =? 0); [ reflexivity | ].
      rewrite literal_cons. cbn [andthen].
      rewrite <- (app_nil_r (pad_int 2 (a mod 60))).
      apply pad2_two_digits; lia. }
    apply Hzone. destruct (o <? 0); auto.
  - destruct (o <? 0); auto.
Qed.

Lemma fraction_microsecond (us : Z) (z : str) :
  0 <= us ->
  match z with [] => True | c :: _ => c = 43%N \/ c = 45%N end ->
  fraction ((if us =? 0 then [] else 46%N :: pad_int 6 us) ++ z) = Some z.
Proof.
  intros Hus Hz. destruct (us =? 0); cbn [app].
  - destruct z as [ | c [ | d z ]]; try reflexivity.
    unfold fraction. destruct Hz; subst; reflexivity.
  - destruct (pad_int_digits 6 us Hus) as (c & rest & Hpad & Hc & Hrest).
    rewrite Hpad. cbn [app fraction]. rewrite N.eqb_refl, Hc.
    rewrite dropwhile_digits; auto.
    destruct z as [ | c' z ]; [ exact I | ]. destruct Hz; subst; reflexivity.
Qed.

(** What [isoformat] prints for a [datetime] is an ISO 8601 timestamp. *)
Lemma isoformat_iso8601 (d : datetime) (s : str) :
  valid_datetime d -> isoformat d = Ok s -> iso8601 s = true.
Proof.
  intros Hvalid H. unfold isoformat in H.
  destruct (utcoffset d) as [off | ] eqn:Eoff; cbn [bind] in H;
    [ | discriminate ].
  inversion H; subst s; clear H.
  destruct Hvalid as (Hy & Hmo & Hd & Hh & Hmi & Hs & Hus).
  assert (Hday : 1 <= day d <= 31).
  { revert Hd. unfold days_in_month.
    repeat match goal with |- context [if ?c then _ else _] => destruct c end;
      lia. }
  destruct (format_offset_zone off) as [Hzone Hhead].
  { destruct off as [o | ]; [ | exact I ]. eapply utcoffset_range; eauto. }
  unfold format_time. cbn [app].
  repeat (rewrite <- app_assoc || rewrite <- app_comm_cons).
  unfold iso8601.
  rewrite pad4_four_digits by lia. cbn [andthen app].
  rewrite literal_cons. cbn [andthen].
  rewrite pad2_two_digits by lia. cbn [andthen app].
  rewrite literal_cons. cbn [andthen].
  rewrite pad2_two_digits by lia. cbn [andthen app].
  rewrite literal_cons. cbn [andthen].
  rewrite pad2_two_digits by lia. cbn [andthen app].
  rewrite literal_cons. cbn [andthen].
  rewrite pad2_two_digits by lia. cbn [andthen app].
  rewrite literal_cons. cbn [andthen].
  rewrite pad2_two_digits by lia. cbn [andthen].
  rewrite fraction_microsecond by (lia || exact Hhead). cbn [andthen].
  rewrite Hzone. reflexivity.
Qed.

Lemma to_json_well_formed (ev : Event) (j : dict) :
  valid_datetime (start ev) -> to_json ev = Ok j -> well_formed j.
Proof.
  intros Hvalid H. apply to_json_ok in H. destruct H as (s & Hiso & ->).
  split; [ reflexivity | ]. exists s. split; [ reflexivity | ].
  eapply isoformat_iso8601; eauto.
Qed.

(** ** Every record an adapter returns is well formed *)

Section Records.

Context {OK : LibraryOk L}.
Hypothesis today_at_import_valid : valid_datetime today_at_import.

Lemma bowery_event_process_well_formed (e : node) (j : dict) :
  bowery_event_process today_at_import e = Ok j -> well_formed j.
Proof.
  unfold bowery_event_process. intros H.
  match type of H with
  | bind ?m _ = _ => destruct m as [ev1 | ] eqn:E1; cbn [bind] in H;
                     [ | discriminate ]
  end.
  assert (H1 : start ev1 = today_at_import).
  { destruct (find e (u "a") []); [ | inversion E1; reflexivity ].
    destruct (attr n (u "href")); cbn [bind] in E1; inversion E1.
    reflexivity. }
  match type of H with
  | bind ?m _ = _ => destruct m as [ev2 | ] eqn:E2; cbn [bind] in H;
                     [ | discriminate ]
  end.
  assert (H2 : valid_datetime (start ev2)).
  { destruct (find e (u "a") [u "calendar-dropdown-item"; u "google"]).
    - bind_ok E2. inversion E2; subst ev2. cbn [start set_start].
      eapply astimezone_tzlocal_valid; eauto.
    - inversion E2; subst ev2. rewrite H1. exact today_at_import_valid. }
  bind_ok H. apply to_json_well_formed in H; [ exact H | ].
  repeat match goal with
         | |- context [match ?x with _ => _ end] => destruct x
         end; exact H2.
Qed.

Lemma houseofblues_item_well_formed (i : json) (acc out : list dict) :
  Forall well_formed acc ->
  houseofblues_item today_at_import i acc = Ok out ->
  Forall well_formed out.
Proof.
  unfold houseofblues_item. intros Hacc H. bind_ok H.
  inversion H; subst out. apply Forall_app; split; [ exact Hacc | ].
  constructor; [ | constructor ].
  match goal with
  | E : to_json _ = Ok _ |- _ => apply to_json_well_formed in E; [ exact E | ]
  end.
  match goal with
  | |- context [truthy ?so] => destruct (truthy so)
  end; cbn [start set_soldout Event_init replace_tzinfo];
    match goal with
    | E : dateutil_parse _ = Ok ?d |- _ =>
        apply dateutil_parse_valid in E; exact E
    end.
Qed.

Lemma crossroads_event_well_formed (e : json) (acc out : list dict) :
  Forall well_formed acc ->
  crossroads_event today_at_import e acc = Ok out ->
  Forall well_formed out.
Proof.
  unfold crossroads_event. intros Hacc H.
  destruct (getitem e (u "category_param")) as [c | ]; cbn [bind] in H;
    [ | discriminate ].
  destruct (is_str c (u "music")); [ | inversion H; subst; exact Hacc ].
  bind_ok H.
  inversion H; subst out. apply Forall_app; split; [ exact Hacc | ].
  constructor; [ | constructor ].
  match goal with
  | E : to_json _ = Ok _ |- _ => apply to_json_well_formed in E; [ exact E | ]
  end.
  match goal with
  | |- context [truthy ?so] => destruct (truthy so)
  end; cbn [start set_soldout Event_init];
    match goal with
    | E : dateutil_parse _ = Ok ?d |- _ =>
        apply dateutil_parse_valid in E; exact E
    end.
Qed.

Lemma crossroads_parse_well_formed (data : json) (out : list dict) :
  crossroads_parse today_at_import data = Ok out -> Forall well_formed out.
Proof.
  unfold crossroads_parse. intros H. bind_ok H.
  revert H. apply for_in_invariant; [ | constructor ].
  intros g acc acc' Hacc Hg. bind_ok Hg.
  revert Hg. apply for_in_invariant; [ | exact Hacc ].
  intros e s s' Hs. apply crossroads_event_well_formed. exact Hs.
Qed.

Lemma middleeast_item_well_formed (i : json) (j : dict) :
  middleeast_item today_at_import i = Ok j -> well_formed j.
Proof.
  unfold middleeast_item. intros H. bind_ok H.
  apply to_json_well_formed in H; [ exact H | ].
  cbn [start Event_init replace_tzinfo].
  match goal with
  | E : strptime _ = Ok ?d |- _ => apply strptime_valid in E; exact E
  end.
Qed.

Lemma middleeast_well_formed (data : str) (out : list dict) :
  middleeast today_at_import data = Ok out -> Forall well_formed out.
Proof.
  unfold middleeast. intros H.
  destruct (re_search_events data); [ | inversion H; constructor ].
  bind_ok H. inversion H; subst out.
  rewrite middleeast_loop_extracted. cbn [app]. unfold extracted.
  apply Forall_forall. intros j Hj. apply in_flat_map in Hj.
  destruct Hj as (i & _ & Hi).
  destruct (middleeast_item today_at_import i) eqn:Ei;
    [ | contradiction ].
  destruct Hi as [ <- | [] ]. eapply middleeast_item_well_formed; eauto.
Qed.

Lemma loop_requests_parsers (ks : list Z) :
  forall cur ap,
    In ap (loop_requests ks cur) ->
    snd ap = mideast_parser \/ snd ap = crossroads_parser.
Proof.
  induction ks as [ | k ks IH ]; intros cur ap Hin; [ contradiction | ].
  cbn [loop_requests] in Hin. apply in_app_or in Hin.
  destruct Hin as [Hin | Hin]; [ | eauto ].
  destruct Hin as [ <- | [ <- | [ <- | [] ]]]; auto.
Qed.

Lemma contribution_well_formed (w : world) (ap : str * parser)
    (l : list dict) :
  In ap (monthly_requests w) ->
  contribution w ap = Ok l -> Forall well_formed l.
Proof.
  intros Hin H. unfold contribution in H.
  destruct (web w (mkrequest (fst ap) [])) as [r | ]; cbn [bind] in H;
    [ | discriminate ].
  destruct (status_code r =? 200); [ | inversion H; constructor ].
  destruct (loop_requests_parsers _ _ _ Hin) as [Hp | Hp]; rewrite Hp in H.
  - eapply middleeast_well_formed; eauto.
  - unfold crossroads_parser in H. bind_ok H.
    eapply crossroads_parse_well_formed; eauto.
Qed.

Lemma mapM_Forall {A B} (P : B -> Prop) (f : A -> res B) (l : list A) :
  (forall a b, In a l -> f a = Ok b -> P b) ->
  forall bs, mapM f l = Ok bs -> Forall P bs.
Proof.
  induction l as [ | a l IH ]; intros Hf bs H; cbn [mapM] in H.
  - inversion H; constructor.
  - destruct (f a) eqn:Ea; cbn [bind] in H; [ | discriminate ].
    destruct (mapM f l) eqn:El; cbn [bind] in H; [ | discriminate ].
    inversion H; subst bs. constructor.
    + eapply Hf; [ left; reflexivity | exact Ea ].
    + apply IH; [ | reflexivity ]. intros a' b' Hin. apply Hf. right; exact Hin.
Qed.

Lemma monthly_cals_well_formed (w : world) (t t' : list request)
    (out : list dict) :
  monthly_cals today_at_import w t = (Ok out, t') -> Forall well_formed out.
Proof.
  intros H.
  pose proof (gather_value w (monthly_requests w) [] t) as Hv.
  rewrite <- monthly_cals_gather, H in Hv. cbn [fst] in Hv.
  destruct (mapM (contribution w) (monthly_requests w)) as [cs | ] eqn:Ecs;
    cbn [bind] in Hv; [ | discriminate ].
  inversion Hv; subst out. cbn [app].
  apply Forall_concat.
  eapply mapM_Forall; [ | exact Ecs ].
  intros ap l Hin. apply contribution_well_formed. exact Hin.
Qed.

Lemma bowery_shows_well_formed (w : world) (t t' : list request)
    (out : list dict) :
  bowery_shows today_at_import w t = (Ok out, t') -> Forall well_formed out.
Proof.
  unfold bowery_shows, bindM, requests_get, lift. intros H.
  destruct (web w _) as [r | ]; [ | discriminate ].
  inversion H as [[Hloop Ht]]. revert Hloop.
  apply for_in_invariant; [ | constructor ].
  intros e acc acc' Hacc He. bind_ok He. inversion He; subst acc'.
  apply Forall_app; split; [ exact Hacc | ].
  constructor; [ | constructor ].
  eapply bowery_event_process_well_formed; eauto.
Qed.

Lemma houseofblues_well_formed (w : world) (t t' : list request)
    (out : list dict) :
  houseofblues today_at_import w t = (Ok out, t') -> Forall well_formed out.
Proof.
  unfold houseofblues, bindM, requests_get, lift. intros H.
  destruct (replace_year _ _); [ | discriminate ].
  destruct (web w _) as [r | ]; [ | discriminate ].
  destruct (json_loads _) as [rawobj | ]; [ | discriminate ].
  destruct (getitem rawobj _) as [result | ]; [ | discriminate ].
  destruct (iter result) as [items | ]; [ | discriminate ].
  inversion H as [[Hloop Ht]]. revert Hloop.
  apply for_in_invariant; [ | constructor ].
  intros i acc acc'. apply houseofblues_item_well_formed.
Qed.

End Records.

(** C1: every record returned by an adapter (the Bowery calendar, the House
    of Blues, the month loop with its two parsers) and by [main] is a
    mapping with exactly the keys venue, bands, start, link and soldout, in
    which [start] is an ISO 8601 timestamp; the packages hand back
    [datetime] objects, and so did the clock when the module was
    imported. *)
Theorem records_well_formed :
  forall (w : world) (t t' : list request) (out : list dict),
    LibraryOk L ->
    valid_datetime today_at_import ->
    bowery_shows today_at_import w t = (Ok out, t')
    \/ houseofblues today_at_import w t = (Ok out, t')
    \/ monthly_cals today_at_import w t = (Ok out, t')
    \/ main today_at_import w t = (Ok out, t')
    \/ (exists data, middleeast today_at_import data = Ok out)
    \/ (exists data, crossroads_parse today_at_import data = Ok out) ->
    Forall well_formed out.
Proof.
  intros w t t' out OK Hvalid [H | [H | [H | [H | [[data H] | [data H]]]]]].
  - eapply bowery_shows_well_formed; eauto.
  - eapply houseofblues_well_formed; eauto.
  - eapply monthly_cals_well_formed; eauto.
  - destruct (main_decomposed _ _ _ _ H) as (html & monthly & Hb & Hm & -> & _).
    apply Forall_app; split.
    + eapply bowery_shows_well_formed; eauto.
    + apply Forall_concat. eapply mapM_Forall; [ | exact Hm ].
      intros ap l Hin. apply contribution_well_formed; auto.
  - eapply middleeast_well_formed; eauto.
  - eapply crossroads_parse_well_formed; eauto.
Qed.

(** ** The string operations of the parsers *)

Lemma startswith_app (p s : str) :
  startswith p s = true -> s = p ++ skipn (length p) s.
Proof.
  revert s; induction p as [ | x p IH ]; intros s H; [ reflexivity | ].
  destruct s as [ | y s ]; [ discriminate | ].
  cbn [startswith] in H. apply andb_true_iff in H. destruct H as [Hx Hp].
  apply N.eqb_eq in Hx. subst y. cbn [length skipn app]. f_equal. auto.
Qed.

Lemma takewhile_dropwhile (f : N -> bool) (s : str) :
  s = takewhile f s ++ dropwhile f s.
Proof.
  induction s as [ | c s IH ]; [ reflexivity | ].
  cbn [takewhile dropwhile]. destruct (f c); [ | reflexivity ].
  cbn [app]. f_equal. exact IH.
Qed.

Lemma takewhile_Forall (f : N -> bool) (s : str) :
  Forall (fun c => f c = true) (takewhile f s).
Proof.
  induction s as [ | c s IH ]; cbn [takewhile]; [ constructor | ].
  destruct (f c) eqn:E; constructor; auto.
Qed.

Lemma dropwhile_head (f : N -> bool) (s : str) :
  match dropwhile f s with
  | [] => True
  | c :: _ => f c = false
  end.
Proof.
  induction s as [ | c s IH ]; cbn [dropwhile]; [ exact I | ].
  destruct (f c) eqn:E; auto.
Qed.

Lemma split_go_cons (sep s : str) :
  forall k cur, exists x l, split_go sep s k cur = x :: l.
Proof.
  induction s as [ | c s IH ]; intros k cur; cbn [split_go]; eauto.
  destruct k; [ destruct (startswith sep (c :: s)) | ]; eauto.
Qed.

Lemma join_cons (sep x : str) (l : list str) :
  l <> [] -> join sep (x :: l) = x ++ sep ++ join sep l.
Proof. destruct l; [ congruence | reflexivity ]. Qed.

Lemma join_split_go (sep : str) :
  sep <> [] ->
  forall s k cur, join sep (split_go sep s k cur) = rev cur ++ skipn k s.
Proof.
  intros Hsep. induction s as [ | c s IH ]; intros k cur.
  - cbn [split_go join]. rewrite skipn_nil, app_nil_r. reflexivity.
  - cbn [split_go]. destruct k as [ | k ].
    + destruct (startswith sep (c :: s)) eqn:E.
      * destruct (split_go_cons sep s (Nat.pred (length sep)) [])
          as (x & l & Hx).
        rewrite join_cons by (rewrite Hx; discriminate).
        rewrite IH. cbn [rev app skipn].
        destruct sep as [ | a sep' ]; [ congruence | ].
        cbn [startswith] in E. apply andb_true_iff in E.
        destruct E as [Ea Es]. apply N.eqb_eq in Ea. subst c.
        apply startswith_app in Es.
        cbn [length Nat.pred app]. rewrite <- Es. reflexivity.
      * rewrite IH. cbn [rev skipn]. rewrite <- app_assoc. reflexivity.
    + rewrite IH. reflexivity.
Qed.

(** Joining the pieces of [s.split(sep)] with [sep] gives [s] back, for
    every separator that is not empty; the list of pieces is never
    empty. *)
Theorem split_join_roundtrip :
  forall (sep s : str),
    sep <> [] ->
    join sep (split sep s) = s /\ split sep s <> [].
Proof.
  intros sep s Hsep. unfold split. split.
  - rewrite join_split_go by exact Hsep. reflexivity.
  - destruct (split_go_cons sep s O []) as (x & l & H). rewrite H.
    discriminate.
Qed.

Lemma re_split_go_spec (s : str) :
  forall cur,
    Forall (fun c => is_separator c = false) cur ->
    let pieces := re_split_comma_bar_go s cur in
    Forall (Forall (fun c => is_separator c = false)) pieces
    /\ length pieces = S (length (filter is_separator s))
    /\ concat pieces
       = rev cur ++ filter (fun c => negb (is_separator c)) s.
Proof.
  induction s as [ | c s IH ]; intros cur Hcur; cbn zeta.
  - cbn [re_split_comma_bar_go filter length concat].
    rewrite !app_nil_r. repeat split. constructor; [ | constructor ].
    apply Forall_rev. exact Hcur.
  - cbn [re_split_comma_bar_go filter]. fold (is_separator c).
    destruct (is_separator c) eqn:E; cbn [negb].
    + destruct (IH [] (Forall_nil _)) as (H1 & H2 & H3).
      cbn [length concat]. rewrite H2, H3. cbn [rev app].
      repeat split. constructor; [ apply Forall_rev; exact Hcur | exact H1 ].
    + destruct (IH (c :: cur)) as (H1 & H2 & H3).
      { constructor; assumption. }
      rewrite H2, H3. cbn [rev]. rewrite <- app_assoc. repeat split.
      exact H1.
Qed.

(** [re.split(r',|\|', s)] cuts at every comma and every bar: no piece
    holds a separator, there is one piece more than there are separators
    (so an empty text gives one empty piece, and empty pieces are kept), and
    the pieces put end to end are the text without its separators. *)
Theorem re_split_comma_bar_pieces :
  forall (s : str),
    Forall (Forall (fun c => is_separator c = false)) (re_split_comma_bar s)
    /\ length (re_split_comma_bar s) = S (length (filter is_separator s))
    /\ concat (re_split_comma_bar s)
       = filter (fun c => negb (is_separator c)) s.
Proof.
  intros s. unfold re_split_comma_bar.
  exact (re_split_go_spec s [] (Forall_nil _)).
Qed.

Lemma dropwhile_fixed (f : N -> bool) (s : str) :
  match s with [] => True | c :: _ => f c = false end ->
  dropwhile f s = s.
Proof.
  destruct s as [ | c s ]; [ reflexivity | ].
  intros H; cbn [dropwhile]; rewrite H; reflexivity.
Qed.

Lemma rstrip_prefix (s : str) :
  exists spaces, s = rstrip s ++ spaces.
Proof.
  unfold rstrip. exists (rev (takewhile isspace (rev s))).
  rewrite <- rev_app_distr, <- takewhile_dropwhile, rev_involutive.
  reflexivity.
Qed.

Lemma rstrip_last (s : str) :
  match rev (rstrip s) with
  | [] => True
  | c :: _ => isspace c = false
  end.
Proof. unfold rstrip. rewrite rev_involutive. apply dropwhile_head. Qed.

Lemma strip_spec (s : str) :
  match strip s with [] => True | c :: _ => isspace c = false end
  /\ match rev (strip s) with [] => True | c :: _ => isspace c = false end
  /\ strip (strip s) = strip s.
Proof.
  assert (Hhead : match strip s with
                  | [] => True
                  | c :: _ => isspace c = false
                  end).
  { unfold strip. pose proof (dropwhile_head isspace s) as Hl.
    fold (lstrip s) in Hl.
    destruct (rstrip_prefix (lstrip s)) as (spaces & Heq).
    destruct (rstrip (lstrip s)) as [ | c r ]; [ exact I | ].
    rewrite Heq in Hl. exact Hl. }
  assert (Hlast : match rev (strip s) with
                  | [] => True
                  | c :: _ => isspace c = false
                  end) by apply rstrip_last.
  split; [ exact Hhead | ]. split; [ exact Hlast | ].
  unfold strip at 1. unfold lstrip at 1.
  rewrite (dropwhile_fixed isspace (strip s) Hhead).
  unfold rstrip. rewrite (dropwhile_fixed isspace (rev (strip s)) Hlast).
  apply rev_involutive.
Qed.

(** [s.strip()] neither begins nor ends with white space, and stripping
    a second time changes nothing. *)
Theorem strip_stripped :
  forall (s : str),
    match strip s with [] => True | c :: _ => isspace c = false end
    /\ match rev (strip s) with [] => True | c :: _ => isspace c = false end
    /\ strip (strip s) = strip s.
Proof. exact strip_spec. Qed.

Lemma escape_quotes_head (s : str) :
  match escape_quotes s with
  | [] => True
  | c :: _ => c <> 34%N
  end.
Proof.
  destruct s as [ | c s ]; [ exact I | ].
  unfold escape_quotes. cbn [flat_map].
  destruct (N.eqb_spec c 34); cbn [app]; [ discriminate | assumption ].
Qed.

Lemma unescape_escape (s : str) :
  re_sub_escaped_quote (escape_quotes s) = s.
Proof.
  induction s as [ | c s IH ]; [ reflexivity | ].
  change (escape_quotes (c :: s))
    with ((if (c =? 34)%N then [92%N; 34%N] else [c]) ++ escape_quotes s).
  destruct (N.eqb_spec c 34) as [-> | Hc]; cbn [app].
  - cbn [re_sub_escaped_quote]. replace ((92 =? 92)%N && (34 =? 34)%N)
      with true by reflexivity.
    f_equal. exact IH.
  - pose proof (escape_quotes_head s) as Hhead.
    destruct (escape_quotes s) as [ | d rest ] eqn:E.
    + cbn [re_sub_escaped_quote]. f_equal. exact IH.
    + change (re_sub_escaped_quote (c :: d :: rest))
        with (if ((c =? 92) && (d =? 34))%N
              then 34%N :: re_sub_escaped_quote rest
              else c :: re_sub_escaped_quote (d :: rest)).
      destruct (N.eqb_spec d 34); [ contradiction | ].
      rewrite andb_false_r. f_equal. exact IH.
Qed.

(** X1: the two steps [houseofblues] takes before decoding undo the
    wrapping of the body: for a text put between two quote characters with a
    backslash before each of its own double quotes, dropping the first and
    last character and replacing each backslash-quote by the quote gives
    the text back. *)
Theorem houseofblues_unwraps_body :
  forall (text first last : str),
    length first = 1%nat -> length last = 1%nat ->
    re_sub_escaped_quote (slice_1_m1 (first ++ escape_quotes text ++ last))
    = text.
Proof.
  intros text first last Hf Hl.
  destruct first as [ | a [ | ? ? ]]; try discriminate.
  destruct last as [ | b [ | ? ? ]]; try discriminate.
  unfold slice_1_m1. cbn [app tl]. rewrite removelast_last.
  apply unescape_escape.
Qed.

(** ** The patterns of the Middle East parser *)

Lemma existsb_dropwhile (f : N -> bool) (s : str) :
  existsb f s = true ->
  exists x rest,
    dropwhile (fun c => negb (f c)) s = x :: rest /\ f x = true.
Proof.
  induction s as [ | c s IH ]; [ discriminate | ].
  cbn [existsb dropwhile]. destruct (f c) eqn:E; cbn [negb orb]; eauto.
Qed.

Lemma match_events_at_capture (s g : str) :
  match_events_at s = Some g ->
  exists body post,
    s = u "events: [" ++ body ++ [93%N] ++ post
    /\ g = [91%N] ++ body ++ [93%N]
    /\ Forall (fun c => c <> 93%N) body.
Proof.
  unfold match_events_at.
  destruct (startswith (u "events: [") s) eqn:Hp; [ | discriminate ].
  apply startswith_app in Hp.
  change (length (u "events: [")) with 9%nat in Hp.
  destruct (existsb (fun c => (c =? 93)%N) (skipn 9 s)) eqn:Hex;
    [ | discriminate ].
  intros H; inversion H; subst g; clear H.
  apply existsb_dropwhile in Hex. destruct Hex as (x & rest & Hd & Hx).
  apply N.eqb_eq in Hx. subst x.
  exists (takewhile (fun c => negb (c =? 93)%N) (skipn 9 s)), rest.
  split; [ | split; [ reflexivity | ] ].
  - rewrite Hp at 1. f_equal. cbn [app]. rewrite <- Hd.
    apply takewhile_dropwhile.
  - eapply Forall_impl; [ | apply takewhile_Forall ].
    intros c Hc; cbn beta in Hc. apply negb_true_iff in Hc.
    apply N.eqb_neq. exact Hc.
Qed.

(** X2: what [re.search(r'events: (\[.*?])', page)] captures starts at the
    bracket that follows the first possible "events: " and ends at the very
    next closing bracket: the capture holds no other closing bracket, so a
    literal with a bracket inside an item is cut short there. *)
Theorem re_search_events_capture :
  forall (data g : str),
    re_search_events data = Some g ->
    exists pre body post,
      data = pre ++ u "events: [" ++ body ++ [93%N] ++ post
      /\ g = [91%N] ++ body ++ [93%N]
      /\ Forall (fun c => c <> 93%N) body.
Proof.
  induction data as [ | c data IH ]; intros g H; cbn [re_search_events] in H.
  - destruct (match_events_at []) eqn:E; [ | discriminate ].
    inversion H; subst. apply match_events_at_capture in E.
    destruct E as (body & post & Hs & Hg & Hb).
    exists [], body, post. auto.
  - destruct (match_events_at (c :: data)) eqn:E.
    + inversion H; subst. apply match_events_at_capture in E.
      destruct E as (body & post & Hs & Hg & Hb).
      exists [], body, post. auto.
    + destruct (IH g H) as (pre & body & post & Hs & Hg & Hb).
      exists (c :: pre), body, post. rewrite Hs. auto.
Qed.

(** The branch of [match_div_at] taken on a closing angle bracket. *)
Lemma closing_bracket_branch {A} (l : str) (f : str -> option A) (a : A) :
  match l with
  | 62%N :: body => f body
  | _ => None
  end = Some a ->
  exists body, l = 62%N :: body /\ f body = Some a.
Proof.
  destruct l as [ | c body ]; [ discriminate | ].
  destruct c as [ | p ]; [ discriminate | ].
  do 6 (destruct p as [ p | p | ]; try discriminate).
  eauto.
Qed.

Lemma match_div_at_capture (s g : str) :
  match_div_at s = Some g ->
  exists attrs post,
    s = u "<div" ++ attrs ++ [62%N] ++ g ++ post
    /\ Forall (fun c => c <> 60%N /\ c <> 62%N) attrs
    /\ g <> []
    /\ Forall (fun c => c <> 60%N) g
    /\ match post with [] => True | c :: _ => c = 60%N end.
Proof.
  unfold match_div_at.
  destruct (startswith (u "<div") s) eqn:Hp; [ | discriminate ].
  apply startswith_app in Hp. change (length (u "<div")) with 4%nat in Hp.
  intros H. apply closing_bracket_branch in H.
  destruct H as (body & Hd & H).
  assert (Hg : takewhile (fun c => negb (c =? 60)%N) body = g).
  { destruct (takewhile (fun c => negb (c =? 60)%N) body);
      [ discriminate | inversion H; reflexivity ]. }
  exists (takewhile (fun c => negb ((c =? 60) || (c =? 62))%N) (skipn 4 s)),
         (dropwhile (fun c => negb (c =? 60)%N) body).
  split; [ | split; [ | split; [ | split ] ] ].
  - rewrite Hp at 1. f_equal. cbn [app].
    etransitivity;
      [ apply (takewhile_dropwhile
                 (fun c => negb ((c =? 60) || (c =? 62))%N)) | ].
    rewrite Hd. f_equal. f_equal. subst g. apply takewhile_dropwhile.
  - eapply Forall_impl; [ | apply takewhile_Forall ].
    intros c Hc; cbn beta in Hc. apply negb_true_iff, orb_false_iff in Hc.
    destruct Hc as [H1 H2]. split; apply N.eqb_neq; assumption.
  - subst g. destruct (takewhile _ body); [ discriminate | discriminate ].
  - subst g. eapply Forall_impl; [ | apply takewhile_Forall ].
    intros c Hc; cbn beta in Hc. apply negb_true_iff in Hc.
    apply N.eqb_neq. exact Hc.
  - pose proof (dropwhile_head (fun c => negb (c =? 60)%N) body) as Hh.
    destruct (dropwhile _ body); [ exact I | ].
    apply negb_false_iff, N.eqb_eq in Hh. exact Hh.
Qed.

Lemma re_search_div_spec (s g : str) :
  re_search_div s = Some g ->
  exists pre attrs post,
    s = pre ++ u "<div" ++ attrs ++ [62%N] ++ g ++ post
    /\ Forall (fun c => c <> 60%N /\ c <> 62%N) attrs
    /\ g <> []
    /\ Forall (fun c => c <> 60%N) g
    /\ match post with [] => True | c :: _ => c = 60%N end.
Proof.
  revert g. induction s as [ | c s IH ]; intros g H;
    cbn [re_search_div] in H.
  - destruct (match_div_at []) eqn:E; [ | discriminate ].
    inversion H; subst. apply match_div_at_capture in E.
    destruct E as (attrs & post & E). exists [], attrs, post. exact E.
  - destruct (match_div_at (c :: s)) eqn:E.
    + inversion H; subst. apply match_div_at_capture in E.
      destruct E as (attrs & post & E). exists [], attrs, post. exact E.
    + destruct (IH g H) as (pre & attrs & post & Hs & Hrest).
      exists (c :: pre), attrs, post. rewrite Hs. auto.
Qed.

(** X3: what [re.search(r'<div[^<>]*>([^<]+)', fragment)] captures is the
    text between the end of an opening [div] tag and the next opening angle
    bracket (or the end of the fragment): it is never empty and holds no
    opening angle bracket; white space in it is kept. *)
Theorem re_search_div_capture :
  forall (s g : str),
    re_search_div s = Some g ->
    exists pre attrs post,
      s = pre ++ u "<div" ++ attrs ++ [62%N] ++ g ++ post
      /\ Forall (fun c => c <> 60%N /\ c <> 62%N) attrs
      /\ g <> []
      /\ Forall (fun c => c <> 60%N) g
      /\ match post with [] => True | c :: _ => c = 60%N end.
Proof. exact re_search_div_spec. Qed.

Lemma middleeast_item_inv (i : json) (j : dict) :
  middleeast_item today_at_import i = Ok j ->
  exists fragment g title starts d id s,
    getitem i (u "venue") = Ok (JStr fragment)
    /\ re_search_div fragment = Some g
    /\ getitem i (u "title") = Ok (JStr title)
    /\ getitem i (u "start") = Ok (JStr starts)
    /\ strptime starts = Ok d
    /\ getitem i (u "id") = Ok (JStr id)
    /\ isoformat (replace_tzinfo d tzlocal) = Ok s
    /\ j = [ (u "venue", JStr g);
             (u "bands",
              JArr (map (fun x => JStr (strip x)) (re_split_comma_bar title)));
             (u "start", JStr s);
             (u "link", JStr (u "http://www.mideastoffers.com/event/" ++ id));
             (u "soldout", JBool false) ].
Proof.
  unfold middleeast_item. intros H.
  destruct (getitem i (u "venue")) as [v | ] eqn:Ev; cbn [bind] in H;
    [ | discriminate ].
  destruct (as_str TypeError v) as [fragment | ] eqn:Ef; cbn [bind] in H;
    [ | discriminate ].
  apply as_str_ok in Ef. subst v.
  destruct (re_search_div fragment) as [g | ] eqn:Eg; cbn [bind] in H;
    [ | discriminate ].
  destruct (getitem i (u "title")) as [t | ] eqn:Et; cbn [bind] in H;
    [ | discriminate ].
  destruct (as_str TypeError t) as [title | ] eqn:Ett; cbn [bind] in H;
    [ | discriminate ].
  apply as_str_ok in Ett. subst t.
  destruct (getitem i (u "start")) as [st | ] eqn:Es; cbn [bind] in H;
    [ | discriminate ].
  destruct (as_str TypeError st) as [starts | ] eqn:Est; cbn [bind] in H;
    [ | discriminate ].
  apply as_str_ok in Est. subst st.
  destruct (strptime starts) as [d | ] eqn:Ed; cbn [bind] in H;
    [ | discriminate ].
  destruct (getitem i (u "id")) as [idv | ] eqn:Ei; cbn [bind] in H;
    [ | discriminate ].
  destruct (as_str TypeError idv) as [id | ] eqn:Eid; cbn [bind] in H;
    [ | discriminate ].
  apply as_str_ok in Eid. subst idv.
  apply to_json_ok in H. cbn [start Event_init] in H.
  destruct H as (s & Hiso & Hj).
  exists fragment, g, title, starts, d, id, s.
  repeat (split; [ assumption || reflexivity | ]). exact Hj.
Qed.

(** X4: a Middle East item yields a record only when its venue, title,
    start and id are all strings, the venue fragment holds an opening [div]
    tag followed by text, and the start is read by [strptime]; the record
    has the captured text as venue, the stripped pieces of the title as
    bands, the base address followed by the id as link, and is never marked
    sold out. *)
Theorem middleeast_item_record :
  forall (i : json) (j : dict),
    middleeast_item today_at_import i = Ok j ->
    exists fragment g title starts d id s,
      getitem i (u "venue") = Ok (JStr fragment)
      /\ re_search_div fragment = Some g
      /\ getitem i (u "title") = Ok (JStr title)
      /\ getitem i (u "start") = Ok (JStr starts)
      /\ strptime starts = Ok d
      /\ getitem i (u "id") = Ok (JStr id)
      /\ isoformat (replace_tzinfo d tzlocal) = Ok s
      /\ j = [ (u "venue", JStr g);
               (u "bands",
                JArr (map (fun x => JStr (strip x))
                          (re_split_comma_bar title)));
               (u "start", JStr s);
               (u "link",
                JStr (u "http://www.mideastoffers.com/event/" ++ id));
               (u "soldout", JBool false) ].
Proof. exact middleeast_item_inv. Qed.

Lemma strip_Forall (P : N -> Prop) (s : str) :
  Forall P s -> Forall P (strip s).
Proof.
  assert (Hdrop : forall l, Forall P l -> Forall P (dropwhile isspace l)).
  { induction l as [ | c l IH ]; intros Hl; cbn [dropwhile]; auto.
    destruct (isspace c); auto. inversion Hl; auto. }
  intros H. unfold strip, rstrip, lstrip.
  apply Forall_rev, Hdrop, Forall_rev, Hdrop, H.
Qed.

(** X5: in a Middle East record the venue is a text that is not empty and
    holds no opening angle bracket, and the bands are at least one text,
    each without white space at either end and without comma or bar (a band
    may be the empty text). *)
Theorem middleeast_record_texts :
  forall (i : json) (j : dict),
    middleeast_item today_at_import i = Ok j ->
    exists g bs,
      assoc (u "venue") j = Some (JStr g)
      /\ g <> [] /\ Forall (fun c => c <> 60%N) g
      /\ assoc (u "bands") j = Some (JArr bs)
      /\ bs <> []
      /\ Forall (fun b => exists x,
                     b = JStr x /\ strip x = x
                     /\ Forall (fun c => is_separator c = false) x) bs.
Proof.
  intros i j H. apply middleeast_item_inv in H.
  destruct H as (fragment & g & title & starts & d & id & s & _ & Hg & _ & _
                 & _ & _ & _ & ->).
  apply re_search_div_spec in Hg.
  destruct Hg as (pre & attrs & post & _ & _ & Hne & Hno & _).
  exists g, (map (fun x => JStr (strip x)) (re_split_comma_bar title)).
  split; [ reflexivity | ]. split; [ exact Hne | ]. split; [ exact Hno | ].
  split; [ reflexivity | ].
  destruct (re_split_go_spec title [] (Forall_nil _)) as (Hpieces & Hlen & _).
  fold (re_split_comma_bar title) in Hpieces, Hlen.
  split.
  - destruct (re_split_comma_bar title); [ discriminate | discriminate ].
  - apply Forall_map. eapply Forall_impl; [ | exact Hpieces ].
    intros x Hx. exists (strip x). split; [ reflexivity | ].
    split; [ apply strip_spec | apply strip_Forall; exact Hx ].
Qed.

(** ** The records of the Bowery calendar *)

Ltac bowery_steps H :=
  repeat (match type of H with
          | context [find ?e ?n ?c] => destruct (find e n c) eqn:?
          | context [attr ?c ?k] => destruct (attr c k) eqn:?
          | context [dateutil_parse ?x] => destruct (dateutil_parse x) eqn:?
          | context [astimezone_tzlocal ?x] =>
              destruct (astimezone_tzlocal x) eqn:?
          end; cbn [bind deref] in H; try discriminate H).

(** The record of a show that yields one, field by field. *)
Lemma bowery_event_process_inv (e : node) (j : dict) :
  bowery_event_process today_at_import e = Ok j ->
  exists loc d s,
    find e (u "p") [u "list-location"] = Some loc
    /\ (find e (u "a") [u "calendar-dropdown-item"; u "google"] = None ->
        d = today_at_import)
    /\ isoformat d = Ok s
    /\ j = [ (u "venue",
              JStr (match find loc (u "strong") [] with
                    | Some cursor => get_text_strip cursor
                    | None => []
                    end));
             (u "bands",
              JArr (match find e (u "div") [u "info-title"] with
                    | Some artist_info =>
                        bowery_headliner artist_info ++ bowery_supporting e
                    | None => []
                    end));
             (u "start", JStr s);
             (u "link",
              JStr (match find e (u "a") [] with
                    | Some cursor =>
                        match attr cursor (u "href") with
                        | Ok href => u "https://www.boweryboston.com" ++ href
                        | Raise _ => []
                        end
                    | None => []
                    end));
             (u "soldout",
              JBool (match find e (u "a")
                                [u "button"; u "event"; u "ticket";
                                 u "primary"] with
                     | Some cursor =>
                         str_eqb (lower (get_text_strip cursor))
                                 (u "sold out")
                     | None => false
                     end)) ].
Proof.
  intros H. unfold bowery_event_process in H.
  unfold bowery_headliner, bowery_supporting.
  bowery_steps H;
    repeat match type of H with
           | context [if ?c then _ else _] => destruct c
           end;
    apply to_json_ok in H; destruct H as (s & Hiso & ->);
    eexists; eexists; exists s;
    (split; [ reflexivity | ]);
    (refine (conj _ (conj Hiso _));
     [ intros Hnone; try discriminate Hnone; reflexivity | ]);
    repeat match goal with
           | Heq : find ?a ?b ?c = _ |- context [find ?a ?b ?c] =>
               rewrite Heq
           end;
    cbn [app]; rewrite ?app_nil_r; reflexivity.
Qed.

(** X6: a show that yields a record is marked sold out exactly when it has
    a ticket button (an [a] with the classes button, event, ticket and
    primary) whose stripped text, in lower case, is "sold out". *)
Theorem bowery_soldout :
  forall (e : node) (j : dict),
    bowery_event_process today_at_import e = Ok j ->
    assoc (u "soldout") j
    = Some (JBool (match find e (u "a")
                              [u "button"; u "event"; u "ticket"; u "primary"]
                   with
                   | Some cursor =>
                       str_eqb (lower (get_text_strip cursor)) (u "sold out")
                   | None => false
                   end)).
Proof.
  intros e j H. apply bowery_event_process_inv in H.
  destruct H as (loc & d & s & _ & _ & _ & ->). reflexivity.
Qed.

(** X7: in the record of a show the link is the address of the site
    followed by the [href] of the first hyperlink of the show, and the empty
    text when the show has no hyperlink; the venue is the stripped text of
    the first [strong] of the location paragraph, and the empty text when
    the paragraph has none; without a calendar link the start is the time
    bound when the module was imported. *)
Theorem bowery_link_venue_start :
  forall (e : node) (j : dict),
    bowery_event_process today_at_import e = Ok j ->
    (match find e (u "a") [] with
     | Some cursor =>
         exists href,
           attr cursor (u "href") = Ok href
           /\ assoc (u "link") j
              = Some (JStr (u "https://www.boweryboston.com" ++ href))
     | None => assoc (u "link") j = Some (JStr [])
     end)
    /\ (exists loc,
          find e (u "p") [u "list-location"] = Some loc
          /\ assoc (u "venue") j
             = Some (JStr (match find loc (u "strong") [] with
                           | Some cursor => get_text_strip cursor
                           | None => []
                           end)))
    /\ (find e (u "a") [u "calendar-dropdown-item"; u "google"] = None ->
        exists s,
          isoformat today_at_import = Ok s
          /\ assoc (u "start") j = Some (JStr s)).
Proof.
  intros e j H.
  assert (Hlink : match find e (u "a") [] with
                  | Some cursor => exists href, attr cursor (u "href") = Ok href
                  | None => True
                  end).
  { unfold bowery_event_process in H.
    destruct (find e (u "a") []) as [cursor | ]; [ | exact I ].
    destruct (attr cursor (u "href")) as [href | ]; [ eauto | discriminate ]. }
  apply bowery_event_process_inv in H.
  destruct H as (loc & d & s & Hloc & Hd & Hiso & ->).
  split; [ | split ].
  - destruct (find e (u "a") []) as [cursor | ]; [ | reflexivity ].
    destruct Hlink as (href & Hhref). exists href. rewrite Hhref. auto.
  - exists loc. auto.
  - intros Hnone. exists s. rewrite <- (Hd Hnone). auto.
Qed.

Lemma bowery_headliner_named (artist_info : node) :
  Forall (fun b => exists s, b = JStr s /\ s <> [])
         (bowery_headliner artist_info).
Proof.
  unfold bowery_headliner.
  destruct (find artist_info (u "a") []) as [cursor | ]; [ | constructor ].
  destruct (get_text_strip cursor) as [ | c s ] eqn:E; cbn [nonempty];
    constructor; [ | constructor ].
  eexists; split; [ reflexivity | discriminate ].
Qed.

Lemma bowery_supporting_named (e : node) :
  Forall (fun b => exists s, b = JStr s /\ s <> []) (bowery_supporting e).
Proof.
  unfold bowery_supporting.
  destruct (find e (u "div") [u "supporting-acts"]) as [cursor | ];
    [ | constructor ].
  destruct (find cursor (u "span") []) as [span | ]; [ | constructor ].
  apply Forall_map, Forall_forall. intros s Hs. apply filter_In in Hs.
  destruct Hs as [_ Hs]. exists s. split; [ reflexivity | ].
  destruct s; [ discriminate | discriminate ].
Qed.

(** X8: the bands of a show that yields a record are the headliner (the
    stripped text of the first link of the title block, when it is not
    empty) followed by the supporting acts (the text of the span, without a
    leading "with" and the white space after it, cut at ", ", the empty
    pieces left out); no band is the empty text; and a show without a title
    block has no band at all, whatever its supporting acts. *)
Theorem bowery_bands :
  forall (e : node) (j : dict),
    bowery_event_process today_at_import e = Ok j ->
    exists bs,
      assoc (u "bands") j = Some (JArr bs)
      /\ bs = match find e (u "div") [u "info-title"] with
              | Some artist_info =>
                  bowery_headliner artist_info ++ bowery_supporting e
              | None => []
              end
      /\ Forall (fun b => exists s, b = JStr s /\ s <> []) bs.
Proof.
  intros e j H. apply bowery_event_process_inv in H.
  destruct H as (loc & d & s & _ & _ & _ & ->).
  eexists. split; [ reflexivity | ]. split; [ reflexivity | ].
  destruct (find e (u "div") [u "info-title"]) as [artist_info | ];
    [ | constructor ].
  apply Forall_app. split.
  - apply bowery_headliner_named.
  - apply bowery_supporting_named.
Qed.

(** X9: a show whose first hyperlink has no [href] attribute yields no
    record: processing it raises the exception of the attribute lookup
    ([KeyError]). *)
Theorem bowery_link_without_href_raises :
  forall (e cursor : node) (x : exn),
    find e (u "a") [] = Some cursor ->
    attr cursor (u "href") = Raise x ->
    bowery_event_process today_at_import e = Raise x.
Proof.
  intros e cursor x Hfind Hattr. unfold bowery_event_process.
  rewrite Hfind, Hattr. reflexivity.
Qed.

(** X10: a show that has a title block and a supporting-acts block without
    a span in it yields no record: processing it raises. *)
Theorem bowery_supporting_without_span_raises :
  forall (e artist_info cursor : node),
    find e (u "div") [u "info-title"] = Some artist_info ->
    find e (u "div") [u "supporting-acts"] = Some cursor ->
    find cursor (u "span") [] = None ->
    exists x, bowery_event_process today_at_import e = Raise x.
Proof.
  intros e artist_info cursor Hinfo Hsupp Hspan. unfold bowery_event_process.
  match goal with
  | |- context [bind ?m _] => destruct m; cbn [bind]; [ | eauto ]
  end.
  match goal with
  | |- context [bind ?m _] => destruct m; cbn [bind]; [ | eauto ]
  end.
  destruct (deref (find e (u "p") [u "list-location"])); cbn [bind];
    [ | eauto ].
  rewrite Hinfo, Hsupp, Hspan. cbn [deref bind]. eauto.
Qed.

Lemma for_in_collect {A B} (f : A -> res B) (l : list A) :
  forall acc,
    for_in l (fun x acc => y <- f x ;; Ok (acc ++ [y])) acc
    = (ys <- mapM f l ;; Ok (acc ++ ys)).
Proof.
  induction l as [ | a l IH ]; intros acc; cbn [for_in mapM bind].
  - rewrite app_nil_r. reflexivity.
  - destruct (f a) as [y | ]; cbn [bind]; [ | reflexivity ].
    rewrite IH. destruct (mapM f l); cbn [bind]; [ | reflexivity ].
    rewrite <- app_assoc. reflexivity.
Qed.

Lemma mapM_length {A B} (f : A -> res B) (l : list A) :
  forall bs, mapM f l = Ok bs -> length bs = length l.
Proof.
  induction l as [ | a l IH ]; intros bs H; cbn [mapM] in H.
  - inversion H; reflexivity.
  - destruct (f a); cbn [bind] in H; [ | discriminate ].
    destruct (mapM f l) eqn:E; cbn [bind] in H; [ | discriminate ].
    inversion H; subst. cbn [length]. f_equal. auto.
Qed.

(** X11: [bowery_shows] sends its one request and, whatever the status of
    the answer, processes every show item of the parsed body in document
    order: it returns one record for each show item, or raises the first
    exception a show item raises, in which case no record is returned. *)
Theorem bowery_shows_all_or_nothing :
  forall (w : world) (t : list request) (r : response),
    web w bowery_request = Ok r ->
    bowery_shows today_at_import w t
    = (mapM (bowery_event_process today_at_import)
            (find_all (BeautifulSoup (text r)) (u "div") [u "show-item"]),
       t ++ [bowery_request])
    /\ (forall out,
          fst (bowery_shows today_at_import w t) = Ok out ->
          length out
          = length (find_all (BeautifulSoup (text r)) (u "div")
                             [u "show-item"])).
Proof.
  intros w t r Hweb.
  assert (Hrun : bowery_shows today_at_import w t
                 = (mapM (bowery_event_process today_at_import)
                         (find_all (BeautifulSoup (text r)) (u "div")
                                   [u "show-item"]),
                    t ++ [bowery_request])).
  { unfold bowery_shows, bindM, requests_get, lift. fold bowery_request.
    rewrite Hweb. rewrite for_in_collect. f_equal.
    destruct (mapM _ _); reflexivity. }
  split; [ exact Hrun | ].
  intros out Hout. rewrite Hrun in Hout. cbn [fst] in Hout.
  eapply mapM_length; eauto.
Qed.

(** ** The House of Blues request and records *)

Lemma leap_year_not_followed (y : Z) :
  is_leap y = true -> is_leap (y + 1) = false.
Proof.
  unfold is_leap. intros H. apply andb_true_iff in H. destruct H as [H4 _].
  apply Z.eqb_eq in H4.
  assert (Hn : ((y + 1) mod 4 =? 0) = false).
  { apply Z.eqb_neq. Z.div_mod_to_equations. lia. }
  rewrite Hn. reflexivity.
Qed.

(** X12: on a 29 February [houseofblues] raises [ValueError] (the same day
    of the next year does not exist) before it sends any request. *)
Theorem houseofblues_leap_day_raises :
  forall (w : world) (t : list request),
    valid_datetime (today w) ->
    month (today w) = 2 -> day (today w) = 29 ->
    houseofblues today_at_import w t = (Raise ValueError, t).
Proof.
  intros w t Hvalid Hm Hd.
  destruct Hvalid as (_ & _ & Hday & _).
  rewrite Hm, Hd in Hday. unfold days_in_month in Hday. cbn in Hday.
  assert (Hleap : is_leap (year (today w)) = true)
    by (destruct (is_leap (year (today w))); [ reflexivity | lia ]).
  apply leap_year_not_followed in Hleap.
  unfold houseofblues, bindM, lift, replace_year.
  rewrite Hm, Hd. unfold days_in_month. cbn [Z.eqb]. rewrite Hleap.
  rewrite andb_false_r. reflexivity.
Qed.

Lemma replace_year_next (d : datetime) :
  valid_datetime d -> year d < 9999 ->
  month d <> 2 \/ day d <> 29 ->
  replace_year d (year d + 1)
  = Ok (mkdatetime (year d + 1) (month d) (day d) (hour d) (minute d)
                   (second d) (microsecond d) (tzinfo d)).
Proof.
  intros (Hy & Hm & Hd & _) Hmax Hnot. unfold replace_year.
  assert (Hday : day d <= days_in_month (year d + 1) (month d)).
  { revert Hd. unfold days_in_month.
    destruct (Z.eqb_spec (month d) 2) as [H2 | H2].
    - destruct (is_leap (year d)), (is_leap (year d + 1)); lia.
    - tauto. }
  destruct (Z.leb_spec 1 (year d + 1)); [ | lia ].
  destruct (Z.leb_spec (year d + 1) 9999); [ | lia ].
  destruct (Z.leb_spec (day d) (days_in_month (year d + 1) (month d)));
    [ | lia ].
  reflexivity.
Qed.

(** X13: on any other day (before the year 9999) [houseofblues] sends
    exactly one request, whatever happens afterwards: to the calendar
    address, for the range from today to the same day and month of the
    next year, both written month/day/year, with the fixed venue, limit,
    offset and offer type. *)
Theorem houseofblues_request :
  forall (w : world) (t : list request),
    valid_datetime (today w) ->
    year (today w) < 9999 ->
    month (today w) <> 2 \/ day (today w) <> 29 ->
    snd (houseofblues today_at_import w t)
    = t ++ [ mkrequest houseofblues_url
               (houseofblues_params
                  (pad_int 2 (month (today w)) ++ [47%N]
                   ++ pad_int 2 (day (today w)) ++ [47%N]
                   ++ str_of_Z (year (today w)))
                  (pad_int 2 (month (today w)) ++ [47%N]
                   ++ pad_int 2 (day (today w)) ++ [47%N]
                   ++ str_of_Z (year (today w) + 1))) ].
Proof.
  intros w t Hvalid Hmax Hnot.
  unfold houseofblues, bindM, lift, requests_get.
  rewrite (replace_year_next _ Hvalid Hmax Hnot).
  fold houseofblues_url. unfold strftime_mdY. cbn [month day year].
  match goal with
  | |- context [web w ?q] => destruct (web w q) as [r | ]
  end; [ | reflexivity ].
  destruct (json_loads _) as [rawobj | ]; [ | reflexivity ].
  destruct (getitem rawobj _) as [result | ]; [ | reflexivity ].
  destruct (iter result) as [items | ]; reflexivity.
Qed.

Lemma artist_name_ok (a : json) (name : str) :
  artist_name a = Ok name -> getitem a (u "name") = Ok (JStr name).
Proof.
  unfold artist_name. destruct (getitem a (u "name")) as [n | ];
    cbn [bind]; [ | discriminate ].
  intros H. apply as_str_ok in H. subst. reflexivity.
Qed.

Lemma houseofblues_support_step (i a : json) (name title : str)
    (acc : list json) :
  getitem a (u "name") = Ok (JStr name) ->
  getitem i (u "title") = Ok (JStr title) ->
  houseofblues_support i a acc
  = Ok (acc ++ map JStr (filter (differs title) [name])).
Proof.
  intros Ha Ht. unfold houseofblues_support, normalized.
  rewrite Ha, Ht. cbn [bind as_str filter]. unfold differs.
  destruct (negb (str_eqb (encode_ascii_ignore (lower name))
                          (encode_ascii_ignore (lower title))));
    cbn [bind map]; [ reflexivity | rewrite app_nil_r; reflexivity ].
Qed.

Lemma houseofblues_support_loop (i : json) (title : str) (rest : list json) :
  forall names acc,
    mapM artist_name rest = Ok names ->
    (rest <> [] -> getitem i (u "title") = Ok (JStr title)) ->
    for_in rest (houseofblues_support i) acc
    = Ok (acc ++ map JStr (filter (differs title) names)).
Proof.
  induction rest as [ | a rest IH ]; intros names acc Hnames Htitle.
  - inversion Hnames. cbn. rewrite app_nil_r. reflexivity.
  - cbn [mapM] in Hnames.
    destruct (artist_name a) as [name | ] eqn:Ea; cbn [bind] in Hnames;
      [ | discriminate ].
    destruct (mapM artist_name rest) as [names' | ] eqn:Er;
      cbn [bind] in Hnames; [ | discriminate ].
    inversion Hnames; subst names; clear Hnames.
    apply artist_name_ok in Ea.
    assert (Ht : getitem i (u "title") = Ok (JStr title))
      by (apply Htitle; discriminate).
    cbn [for_in].
    rewrite (houseofblues_support_step i a name title acc Ea Ht).
    cbn [bind]. rewrite (IH names' _ eq_refl (fun _ => Ht)).
    rewrite <- app_assoc, <- map_app, <- filter_app. reflexivity.
Qed.

(** X14: a House of Blues item with a first artist that has a name, further
    artists whose names are strings (and then a title that is a string), a
    venue name, an event date the parser reads, an event id and a sold-out
    field yields one record: the venue name as it is, the first artist's
    name followed by the other names that differ from the title, the
    parsed date in the local zone, the detail address with the id and
    offer 0, and soldout true exactly when the sold-out field is truthy. *)
Theorem houseofblues_item_record :
  forall (i first : json) (rest : list json) (events_list : list dict)
         (headliner vn id so : json) (names : list str)
         (title eds s : str) (d : datetime),
    getitem i (u "artists") = Ok (JArr (first :: rest)) ->
    getitem first (u "name") = Ok headliner ->
    mapM artist_name rest = Ok names ->
    (rest <> [] -> getitem i (u "title") = Ok (JStr title)) ->
    getitem i (u "venueName") = Ok vn ->
    getitem i (u "eventDate") = Ok (JStr eds) ->
    dateutil_parse eds = Ok d ->
    getitem i (u "eventID") = Ok id ->
    getitem i (u "soldOut") = Ok so ->
    isoformat (replace_tzinfo d tzlocal) = Ok s ->
    houseofblues_item today_at_import i events_list
    = Ok (events_list
          ++ [[ (u "venue", vn);
                (u "bands",
                 JArr (headliner :: map JStr (filter (differs title) names)));
                (u "start", JStr s);
                (u "link",
                 JStr (u "http://www.houseofblues.com/boston/EventDetail?tmeventid="
                       ++ format id ++ u "&offerid=0"));
                (u "soldout", JBool (truthy so)) ]]).
Proof.
  intros i first rest acc h vn id so names title eds s d
         Ha Hh Hnames Htitle Hvn Hed Hd Hid Hso Hiso.
  unfold houseofblues_item. rewrite Ha. cbn [bind pop0]. rewrite Hh.
  cbn [bind].
  rewrite (houseofblues_support_loop i title rest names [h] Hnames Htitle).
  cbn [bind app]. rewrite Hvn. cbn [bind]. rewrite Hed. cbn [bind as_str].
  rewrite Hd. cbn [bind]. rewrite Hid. cbn [bind]. rewrite Hso. cbn [bind].
  unfold to_json.
  destruct (truthy so); cbn [start set_soldout Event_init];
    rewrite Hiso; reflexivity.
Qed.

(** ** The records of the Crossroads calendars *)

Lemma is_str_eq (v : json) (s : str) : is_str v s = true -> v = JStr s.
Proof.
  destruct v; cbn [is_str]; try discriminate.
  intros H. apply str_eqb_eq in H. subst. reflexivity.
Qed.

Lemma crossroads_event_length (e : json) (acc out : list dict) :
  crossroads_event today_at_import e acc = Ok out ->
  length out = (length acc + (if is_music e then 1 else 0))%nat.
Proof.
  intros H. unfold is_music.
  destruct (getitem e (u "category_param")) as [c | ] eqn:Ec.
  - destruct (is_str c (u "music")) eqn:Em.
    + apply is_str_eq in Em. subst c.
      destruct (crossroads_event_inv e acc out Ec H)
        as (bands_ & record & _ & _ & ->).
      rewrite length_app. reflexivity.
    + unfold crossroads_event in H. rewrite Ec in H. cbn [bind] in H.
      rewrite Em in H. inversion H. lia.
  - unfold crossroads_event in H. rewrite Ec in H. discriminate.
Qed.

Lemma crossroads_events_length (es : list json) :
  forall acc out,
    for_in es (crossroads_event today_at_import) acc = Ok out ->
    length out = (length acc + length (filter is_music es))%nat.
Proof.
  induction es as [ | e es IH ]; intros acc out H; cbn [for_in] in H.
  - inversion H. cbn. lia.
  - destruct (crossroads_event today_at_import e acc) as [acc' | ] eqn:E;
      cbn [bind] in H; [ | discriminate ].
    apply crossroads_event_length in E. apply IH in H.
    cbn [filter]. destruct (is_music e); cbn [length]; lia.
Qed.

Lemma crossroads_groups_flat (gs : list json) :
  forall acc out,
    for_in gs
      (fun g events_list =>
         evs <- getitem g (u "events") ;;
         es <- iter evs ;;
         for_in es (crossroads_event today_at_import) events_list)
      acc = Ok out ->
    exists ess,
      mapM group_events gs = Ok ess
      /\ for_in (concat ess) (crossroads_event today_at_import) acc = Ok out.
Proof.
  induction gs as [ | g gs IH ]; intros acc out H; cbn [for_in] in H.
  - inversion H; subst. exists []. split; reflexivity.
  - match type of H with
    | bind ?m _ = _ => destruct m as [acc' | ] eqn:Eg; cbn [bind] in H;
                       [ | discriminate ]
    end.
    destruct (getitem g (u "events")) as [evs | ] eqn:Eevs;
      cbn [bind] in Eg; [ | discriminate ].
    destruct (iter evs) as [es | ] eqn:Ees; cbn [bind] in Eg;
      [ | discriminate ].
    destruct (IH _ _ H) as (ess & Hess & Hflat).
    exists (es :: ess). split.
    + cbn [mapM]. unfold group_events at 1. rewrite Eevs. cbn [bind].
      rewrite Ees. cbn [bind]. rewrite Hess. reflexivity.
    + cbn [concat]. rewrite for_in_app, Eg. exact Hflat.
Qed.

(** X15: when [crossroads_parse] returns, the response holds a list of
    groups each holding a list of events, and the records are those of the
    events taken group after group in order: one record for each event
    whose category is "music", none for the others (which are not looked at
    beyond their category). *)
Theorem crossroads_parse_music_only :
  forall (data : json) (out : list dict),
    crossroads_parse today_at_import data = Ok out ->
    exists gs ess,
      (groups <- getitem data (u "event_groups") ;; iter groups) = Ok gs
      /\ mapM group_events gs = Ok ess
      /\ for_in (concat ess) (crossroads_event today_at_import) [] = Ok out
      /\ length out = length (filter is_music (concat ess)).
Proof.
  intros data out H. unfold crossroads_parse in H.
  destruct (getitem data (u "event_groups")) as [groups | ];
    cbn [bind] in H |- *; [ | discriminate ].
  destruct (iter groups) as [gs | ] eqn:Egs; cbn [bind] in H;
    [ | discriminate ].
  apply crossroads_groups_flat in H. destruct H as (ess & Hess & Hflat).
  exists gs, ess.
  split; [ reflexivity | ]. split; [ exact Hess | ].
  split; [ exact Hflat | ].
  apply crossroads_events_length in Hflat. exact Hflat.
Qed.

(** X16: a "music" event yields a record only when it has a venue with a
    title, artists, a begin date that is a string the parser reads, a
    permalink that is a string and a sold-out field; the record has the
    venue title as it is, the parsed date as it is (no zone is attached),
    the address of the site followed by the permalink, and soldout true
    exactly when the sold-out field is truthy. *)
Theorem crossroads_event_record :
  forall (e : json) (events_list out : list dict),
    getitem e (u "category_param") = Ok (JStr (u "music")) ->
    crossroads_event today_at_import e events_list = Ok out ->
    exists v vt bands_ begin d permalink so s,
      getitem e (u "venue") = Ok v
      /\ getitem v (u "title") = Ok vt
      /\ crossroads_bands e = Ok bands_
      /\ getitem e (u "tz_adjusted_begin_date") = Ok (JStr begin)
      /\ dateutil_parse begin = Ok d
      /\ getitem e (u "permalink") = Ok (JStr permalink)
      /\ getitem e (u "sold_out") = Ok so
      /\ isoformat d = Ok s
      /\ out = events_list
               ++ [[ (u "venue", vt); (u "bands", JArr bands_);
                     (u "start", JStr s);
                     (u "link",
                      JStr (u "http://events.crossroadspresents.com"
                            ++ permalink));
                     (u "soldout", JBool (truthy so)) ]].
Proof.
  intros e acc out Hc H. unfold crossroads_event in H. rewrite Hc in H.
  cbn [bind] in H.
  replace (is_str (JStr (u "music")) (u "music")) with true in H
    by reflexivity.
  destruct (getitem e (u "venue")) as [v | ] eqn:Ev; cbn [bind] in H;
    [ | discriminate ].
  destruct (getitem v (u "title")) as [vt | ] eqn:Evt; cbn [bind] in H;
    [ | discriminate ].
  unfold crossroads_bands.
  destruct (getitem e (u "artists")) as [a | ] eqn:Ea; cbn [bind] in H |- *;
    [ | discriminate ].
  match type of H with
  | bind ?m _ = _ => destruct m as [bands_ | ] eqn:Eb; cbn [bind] in H;
                     [ | discriminate ]
  end.
  destruct (getitem e (u "tz_adjusted_begin_date")) as [b | ] eqn:Eb1;
    cbn [bind] in H; [ | discriminate ].
  destruct (as_str TypeError b) as [begin | ] eqn:Eb2; cbn [bind] in H;
    [ | discriminate ].
  apply as_str_ok in Eb2. subst b.
  destruct (dateutil_parse begin) as [d | ] eqn:Ed; cbn [bind] in H;
    [ | discriminate ].
  destruct (getitem e (u "permalink")) as [p | ] eqn:Ep; cbn [bind] in H;
    [ | discriminate ].
  destruct (as_str TypeError p) as [permalink | ] eqn:Ep2; cbn [bind] in H;
    [ | discriminate ].
  apply as_str_ok in Ep2. subst p.
  destruct (getitem e (u "sold_out")) as [so | ] eqn:Eso; cbn [bind] in H;
    [ | discriminate ].
  match type of H with
  | bind ?m _ = _ => destruct m as [j | ] eqn:Ej; cbn [bind] in H;
                     [ | discriminate ]
  end.
  apply to_json_ok in Ej. destruct Ej as (s & Hiso & Hj).
  inversion H; subst out; clear H.
  exists v, vt, bands_, begin, d, permalink, so, s.
  repeat (split; [ assumption || reflexivity | ]).
  destruct (truthy so); cbn [start set_soldout Event_init] in Hiso;
    (split; [ exact Hiso | ]); subst j; reflexivity.
Qed.

Lemma crossroads_event_without_permalink (e : json) (acc : list dict) :
  getitem e (u "category_param") = Ok (JStr (u "music")) ->
  getitem e (u "permalink") = Raise KeyError ->
  exists x, crossroads_event today_at_import e acc = Raise x.
Proof.
  intros Hc Hp. unfold crossroads_event. rewrite Hc. cbn [bind].
  replace (is_str (JStr (u "music")) (u "music")) with true by reflexivity.
  repeat lazymatch goal with
         | |- exists x, bind (getitem e (u "permalink")) _ = _ =>
             rewrite Hp; cbn [bind]
         | |- exists x, bind ?m _ = _ =>
             destruct m; cbn [bind]; [ | eexists; reflexivity ]
         end.
  eexists; reflexivity.
Qed.

(** X17: the events of a Crossroads response are not isolated from one
    another: a single "music" event without a permalink, in any group,
    makes [crossroads_parse] raise, and no record of the response is
    returned. *)
Theorem crossroads_parse_not_isolated :
  forall (data groups g evs e : json) (gs es : list json),
    getitem data (u "event_groups") = Ok groups ->
    iter groups = Ok gs ->
    In g gs ->
    getitem g (u "events") = Ok evs ->
    iter evs = Ok es ->
    In e es ->
    getitem e (u "category_param") = Ok (JStr (u "music")) ->
    getitem e (u "permalink") = Raise KeyError ->
    exists x, crossroads_parse today_at_import data = Raise x.
Proof.
  intros data groups g evs e gs es Hgroups Hgs Hg Hevs Hes He Hc Hp.
  unfold crossroads_parse. rewrite Hgroups. cbn [bind]. rewrite Hgs.
  cbn [bind]. apply for_in_raises with (x := g); [ exact Hg | ].
  intros acc. rewrite Hevs. cbn [bind]. rewrite Hes. cbn [bind].
  apply for_in_raises with (x := e); [ exact He | ].
  intros acc'. apply crossroads_event_without_permalink; assumption.
Qed.

(** ** More on the month loop and the aggregator *)

Lemma gather_raises (w : world) (e : exn) (reqs : list (str * parser)) :
  forall n ap cs acc t,
    nth_error reqs n = Some ap ->
    mapM (contribution w) (firstn n reqs) = Ok cs ->
    contribution w ap = Raise e ->
    gather w reqs acc t
    = (Raise e, t ++ map request_of (firstn (S n) reqs)).
Proof.
  unfold gather.
  induction reqs as [ | a reqs IH ]; intros n ap cs acc t Hn Hcs Hap.
  - destruct n; discriminate.
  - cbn [for_inM]. unfold bindM. rewrite fetch_into_contribution.
    destruct n as [ | n ].
    + inversion Hn; subst a. rewrite Hap. reflexivity.
    + cbn [firstn mapM] in Hcs.
      destruct (contribution w a) as [l | ]; cbn [bind] in Hcs |- *;
        [ | discriminate ].
      destruct (mapM (contribution w) (firstn n reqs)) as [cs' | ] eqn:Ecs;
        cbn [bind] in Hcs; [ | discriminate ].
      cbn [nth_error] in Hn.
      rewrite (IH n ap cs' _ _ Hn Ecs Hap).
      change (firstn (S (S n)) (a :: reqs)) with (a :: firstn (S n) reqs).
      cbn [map]. rewrite <- app_assoc. reflexivity.
Qed.

(** X18: the month loop stops at the first request that raises, whether the
    request itself fails or the parser of its answer raises (a body that is
    not JSON, a page whose literal does not decode): that exception escapes
    [monthly_cals], the records gathered so far are lost, and no later
    request is sent. *)
Theorem monthly_cals_stops_at_first_exception :
  forall (w : world) (n : nat) (ap : str * parser) (cs : list (list dict))
         (e : exn) (t : list request),
    nth_error (monthly_requests w) n = Some ap ->
    mapM (contribution w) (firstn n (monthly_requests w)) = Ok cs ->
    contribution w ap = Raise e ->
    monthly_cals today_at_import w t
    = (Raise e, t ++ map request_of (firstn (S n) (monthly_requests w))).
Proof.
  intros w n ap cs e t Hn Hcs Hap. rewrite monthly_cals_gather.
  eapply gather_raises; eauto.
Qed.

Lemma gather_all_skipped (w : world) (reqs : list (str * parser)) :
  forall acc t,
    (forall ap, In ap reqs -> contribution w ap = Ok []) ->
    gather w reqs acc t = (Ok acc, t ++ map request_of reqs).
Proof.
  unfold gather. induction reqs as [ | a reqs IH ]; intros acc t Hall.
  - cbn. rewrite app_nil_r. reflexivity.
  - cbn [for_inM]. unfold bindM. rewrite fetch_into_contribution.
    rewrite (Hall a (or_introl eq_refl)). cbn [bind]. rewrite app_nil_r.
    rewrite IH by (intros ap Hin; apply Hall; right; exact Hin).
    cbn [map]. rewrite <- app_assoc. reflexivity.
Qed.

(** X19: on a web that answers every request with a status other than 200,
    [monthly_cals] returns the empty list, raises nothing, and has sent all
    of its 36 requests. *)
Theorem monthly_cals_nothing_found :
  forall (w : world) (t : list request),
    (forall q, exists r, web w q = Ok r /\ status_code r <> 200) ->
    monthly_cals today_at_import w t
    = (Ok [], t ++ map request_of (monthly_requests w))
    /\ length (monthly_requests w) = 36%nat.
Proof.
  intros w t Hweb. split; [ | reflexivity ].
  rewrite monthly_cals_gather. apply gather_all_skipped.
  intros ap _. unfold contribution.
  destruct (Hweb (mkrequest (fst ap) [])) as (r & Hr & Hs).
  rewrite Hr. cbn [bind].
  destruct (Z.eqb_spec (status_code r) 200); [ contradiction | reflexivity ].
Qed.

Lemma monthly_loop_state (w : world) (ks : list Z) :
  forall cur acc t st t',
    for_inM ks (monthly_cals_body today_at_import w) (cur, acc) t
    = (Ok st, t') ->
    fst st = fold_left (fun c _ => next_month c) ks cur.
Proof.
  induction ks as [ | k ks IH ]; intros cur acc t st t' H.
  - cbn in H. inversion H. reflexivity.
  - cbn [for_inM] in H. unfold bindM in H.
    rewrite monthly_cals_body_gather in H. unfold bindM, ret in H.
    destruct (gather w (period_requests k (next_month cur)) acc t)
      as [[acc1 | e] t1]; [ | discriminate ].
    apply IH in H. exact H.
Qed.

(** X20: when the twelve turns of the month loop complete, [cur_date] is
    the month of today in the next year: the loop covers the eleven months
    left after today's month and the first months of the next year up to
    today's month, and never the month of today itself in this year. *)
Theorem monthly_loop_ends_a_year_later :
  forall (w : world) (m y : Z) (acc : list dict) (t t' : list request)
         (st : (Z * Z) * list dict),
    1 <= m <= 12 ->
    for_inM range12 (monthly_cals_body today_at_import w) ((m, y), acc) t
    = (Ok st, t') ->
    fst st = (m, y + 1)
    /\ ~ In (m, y) (months_from (m, y) 12).
Proof.
  intros w m y acc t t' st Hm H. apply monthly_loop_state in H.
  assert (Hcases : m = 1 \/ m = 2 \/ m = 3 \/ m = 4 \/ m = 5 \/ m = 6
                   \/ m = 7 \/ m = 8 \/ m = 9 \/ m = 10 \/ m = 11 \/ m = 12)
    by lia.
  split.
  - rewrite H.
    repeat (destruct Hcases as [-> | Hcases]; [ reflexivity | ]).
    subst m. reflexivity.
  - assert (Hin : forall my, In my (months_from (m, y) 12) ->
                             (snd my = y /\ m < fst my)
                             \/ (snd my = y + 1 /\ fst my <= m)).
    { repeat (destruct Hcases as [-> | Hcases];
              [ intros my Hin; cbn in Hin;
                repeat (destruct Hin as [<- | Hin]; [ cbn; lia | ]);
                contradiction | ]).
      subst m. intros my Hin; cbn in Hin;
        repeat (destruct Hin as [<- | Hin]; [ cbn; lia | ]);
        contradiction. }
    intros Hself. apply Hin in Hself. cbn [fst snd] in Hself. lia.
Qed.






(** ** Serialization *)

(** X22: [to_json] either returns a mapping with the five keys or raises
    [ValueError], and it raises only for a start that carries a zone whose
    offset is not strictly within one day: a start without zone is always
    serialized. *)
Theorem to_json_raises_only_for_offset :
  forall (ev : Event),
    match to_json ev with
    | Ok j =>
        map fst j = [u "venue"; u "bands"; u "start"; u "link"; u "soldout"]
    | Raise x =>
        x = ValueError
        /\ exists zone_ off,
             tzinfo (start ev) = Some zone_
             /\ off = match zone_ with
                      | tzoffset seconds => seconds
                      | tzlocal => tzlocal_utcoffset (start ev)
                      end
             /\ ~ (-86400 < off < 86400)
    end.
Proof.
  intros ev. unfold to_json, isoformat, utcoffset.
  destruct (tzinfo (start ev)) as [zone_ | ]; [ | reflexivity ].
  match goal with
  | |- context [if ?c then _ else _] => destruct c eqn:E
  end; [ reflexivity | ].
  cbn [bind]. split; [ reflexivity | ].
  eexists; eexists. split; [ reflexivity | ]. split; [ reflexivity | ].
  apply andb_false_iff in E.
  destruct E as [E | E]; apply Z.ltb_ge in E; lia.
Qed.

End Properties.

(** * The properties on the sample pages *)

Lemma valid_datetime_b_ok (d : datetime) :
  Sample.valid_datetime_b d = true -> valid_datetime d.
Proof.
  unfold Sample.valid_datetime_b, valid_datetime. intros H.
  repeat match type of H with
         | (_ && _) = true =>
             let H' := fresh "H" in
             apply andb_true_iff in H; destruct H as [H H']
         end.
  repeat match goal with
         | H : (_ <=? _) = true |- _ => apply Z.leb_le in H
         end.
  lia.
Qed.

Lemma checked_valid (d d' : datetime) :
  Sample.checked d = Ok d' -> valid_datetime d'.
Proof.
  unfold Sample.checked. destruct (Sample.valid_datetime_b d) eqn:E;
    [ | discriminate ].
  intros H; inversion H; subst. apply valid_datetime_b_ok. exact E.
Qed.

(** The sample library hands back [datetime] objects. *)
Lemma sample_library_ok : LibraryOk Sample.library.
Proof.
  split.
  - intros s d. cbn [dateutil_parse Sample.library]. unfold Sample.parse_iso.
    destruct (Sample.read_fields _ _); [ | discriminate ].
    destruct (Sample.read_zone _); [ | discriminate ].
    apply checked_valid.
  - intros s d. cbn [strptime Sample.library]. unfold Sample.parse_ymdhms.
    destruct (Sample.read_fields _ _); [ | discriminate ].
    destruct (_ =? _)%nat; [ | discriminate ].
    apply checked_valid.
  - intros d d'. cbn [astimezone_tzlocal Sample.library]. unfold Sample.to_utc.
    apply checked_valid.
Defined.

Lemma sample_clock_valid : valid_datetime Sample.clock.
Proof. unfold valid_datetime; cbn; lia. Defined.

(** C1 on the sample web: the records [main] returns. *)
Lemma records_well_formed_witness :
  Forall well_formed
         (Sample.returned (main (L := Sample.library) Sample.clock
                                Sample.earth [])).
Proof.
  apply (records_well_formed (L := Sample.library) Sample.clock Sample.earth
           [] (snd (main (L := Sample.library) Sample.clock Sample.earth []))).
  - exact sample_library_ok.
  - exact sample_clock_valid.
  - right; right; right; left. vm_compute. reflexivity.
Defined.

(** C2 on the sample page of the Middle East: five items, the third with a
    venue that holds no [div]. *)
Lemma middleeast_drops_only_failing_items_witness :
  middleeast (L := Sample.library) Sample.clock Sample.mideast_page
  = Ok (extracted (L := Sample.library) Sample.clock Sample.mideast_items)
  /\ length (extracted (L := Sample.library) Sample.clock
                       Sample.mideast_items) = 4%nat.
Proof.
  split; [ | vm_compute; reflexivity ].
  apply (middleeast_drops_only_failing_items (L := Sample.library)
           Sample.clock Sample.mideast_page Sample.mideast_literal
           Sample.mideast_items); vm_compute; reflexivity.
Defined.

(** C3 on the sample web: the Paradise Rock Club is not found for
    period 5. *)
Lemma monthly_cals_skips_failed_request_witness :
  contribution Sample.earth
    (paradise_url 5, crossroads_parser (L := Sample.library) Sample.clock)
  = Ok [].
Proof.
  refine (proj1 (monthly_cals_skips_failed_request (L := Sample.library)
                   Sample.clock Sample.earth 16
                   (paradise_url 5,
                    crossroads_parser (L := Sample.library) Sample.clock)
                   Sample.not_found [] _ _ _)).
  - reflexivity.
  - vm_compute. reflexivity.
  - cbn. discriminate.
Defined.

(** C4: on the sample web the records of [main] and those of the order the
    claim states differ, in their order and in the House of Blues. *)
Lemma main_not_in_claimed_order :
  Sample.venues (Sample.returned (main (L := Sample.library) Sample.clock
                                       Sample.earth []))
  = map (fun v => Some (JStr (u v)))
        [ "The Sinclair"; "Upstairs"; "Downstairs"; "Sonia"; "Zuzu";
          "Paradise Rock Club" ]%string
  /\ Sample.venues
       (Sample.returned (aggregate_as_claimed (L := Sample.library)
                           Sample.clock Sample.earth []))
     = map (fun v => Some (JStr (u v)))
           [ "The Sinclair"; "Paradise Rock Club"; "Upstairs"; "Downstairs";
             "Sonia"; "Zuzu"; "House of Blues Boston" ]%string
  /\ fst (main (L := Sample.library) Sample.clock Sample.earth [])
     <> fst (aggregate_as_claimed (L := Sample.library) Sample.clock
               Sample.earth []).
Proof.
  split; [ vm_compute; reflexivity | ].
  split; [ vm_compute; reflexivity | ].
  intros H.
  apply (f_equal (fun r => match r with
                           | Ok l => length l
                           | Raise _ => O
                           end)) in H.
  vm_compute in H. discriminate H.
Qed.

(** C4 (as amended) on the sample web. *)
Lemma main_order_witness :
  exists html monthly,
    bowery_shows (L := Sample.library) Sample.clock Sample.earth []
    = (Ok html, [] ++ [bowery_request])
    /\ mapM (contribution Sample.earth)
            (monthly_requests (L := Sample.library) Sample.clock Sample.earth)
       = Ok monthly
    /\ Sample.returned (main (L := Sample.library) Sample.clock
                             Sample.earth [])
       = html ++ concat monthly
    /\ snd (main (L := Sample.library) Sample.clock Sample.earth [])
       = [] ++ bowery_request
            :: map request_of
                 (monthly_requests (L := Sample.library) Sample.clock
                                   Sample.earth).
Proof.
  apply (main_order (L := Sample.library) Sample.clock Sample.earth []).
  vm_compute. reflexivity.
Defined.

(** C5 on the sample item of the House of Blues. *)
Lemma houseofblues_bands_witness :
  exists record,
    houseofblues_item (L := Sample.library) Sample.clock Sample.hob_item []
    = Ok [record]
    /\ assoc (u "bands") record
       = Some (JArr [JStr (u "Lucy Dacus"); JStr (u "And The Kids")]).
Proof.
  destruct (houseofblues_bands (L := Sample.library) Sample.clock
              Sample.hob_item []
              (Sample.returned
                 (houseofblues_item (L := Sample.library) Sample.clock
                                    Sample.hob_item [], [])))
    as (first & rest & h & names & title & record & _ & _ & _ & _ & Hout
        & _ & Hex).
  - vm_compute. reflexivity.
  - exists record. split.
    + transitivity (Ok (A := list dict)
                      (Sample.returned
                         (houseofblues_item (L := Sample.library) Sample.clock
                                            Sample.hob_item [], [])));
        [ vm_compute; reflexivity | rewrite Hout; reflexivity ].
    + apply Hex; reflexivity.
Defined.

(** C6 on the event of the quoted response. *)
Lemma crossroads_music_bands_witness :
  exists record l,
    crossroads_parse (L := Sample.library) Sample.clock
                     Sample.crossroads_month = Ok [record]
    /\ assoc (u "venue") record = Some (JStr (u "Paradise Rock Club"))
    /\ assoc (u "bands") record = Some (JArr [JStr (u "Show")])
    /\ assoc (u "link") record = Some (JStr l)
    /\ endswith (u "/events/x") l = true
    /\ assoc (u "soldout") record = Some (JBool false).
Proof.
  refine (proj2 (crossroads_music_bands (L := Sample.library) Sample.clock
                   (JObj [ (u "category_param", JStr (u "music"));
                           (u "venue",
                            JObj [(u "title", JStr (u "Paradise Rock Club"))]);
                           (u "title", JStr (u "Show"));
                           (u "sold_out", JBool false);
                           (u "artists", JArr []);
                           (u "tz_adjusted_begin_date",
                            JStr (u "2018-03-02T18:00:00-05:00"));
                           (u "permalink", JStr (u "/events/x")) ])
                   []
                   (Sample.returned
                      (crossroads_parse (L := Sample.library) Sample.clock
                                        Sample.crossroads_month, []))
                   _ _)
                (mkdatetime 2018 3 2 18 0 0 0 (Some (tzoffset (-18000))))
                (u "2018-03-02T18:00:00-05:00") _ _);
    vm_compute; reflexivity.
Defined.

(** C7 on the sample web: the run started on 15 January 2018 asks for
    February 2018 to January 2019. *)
Lemma monthly_cals_months_witness :
  map url (snd (monthly_cals (L := Sample.library) Sample.clock
                             Sample.earth []))
  = flat_map (fun km => [ mideast_url (snd km); paradise_url (fst km);
                          brighton_url (fst km) ])
             (combine range12
                [ (2, 2018); (3, 2018); (4, 2018); (5, 2018); (6, 2018);
                  (7, 2018); (8, 2018); (9, 2018); (10, 2018); (11, 2018);
                  (12, 2018); (1, 2019) ]).
Proof.
  destruct (monthly_cals_months (L := Sample.library) Sample.clock
              Sample.earth []
              (snd (monthly_cals (L := Sample.library) Sample.clock
                                 Sample.earth []))
              (Sample.returned (monthly_cals (L := Sample.library)
                                  Sample.clock Sample.earth [])))
    as [_ Htrace].
  - exact sample_clock_valid.
  - vm_compute. reflexivity.
  - rewrite Htrace. vm_compute. reflexivity.
Defined.

(** C8: the sample show without its location paragraph. *)
Lemma bowery_missing_location_raises_witness :
  exists x,
    bowery_event_process (L := Sample.library) Sample.clock
                         Sample.show_item_without_location = Raise x.
Proof.
  apply (bowery_missing_location_raises (L := Sample.library) Sample.clock).
  vm_compute. reflexivity.
Defined.

(** C10: an item whose [artists] array is empty. *)
Lemma houseofblues_empty_artists_raises_witness :
  houseofblues_item (L := Sample.library) Sample.clock
    (JObj [(u "artists", JArr []); (u "title", JStr (u "Lucy Dacus"))]) []
  = Raise IndexError.
Proof.
  apply (houseofblues_empty_artists_raises (L := Sample.library)
           Sample.clock
           (JObj [(u "artists", JArr []); (u "title", JStr (u "Lucy Dacus"))])).
  reflexivity.
Defined.

(** C8: what processing that show evaluates to. *)
Example bowery_event_process_without_location :
  bowery_event_process (L := Sample.library) Sample.clock
                       Sample.show_item_without_location
  = Raise AttributeError.
Proof. vm_compute. reflexivity. Qed.

(** C9: the module is imported at 10:30:00 and an [Event] is built without
    a [start] half a second later; its [start] is 10:30:00. *)
Example Event_built_later_has_import_time :
  let now := mkdatetime 2018 1 15 10 30 0 500000 None in
  start (Event_init Sample.clock None None None None None) = Sample.clock
  /\ start (Event_init Sample.clock None None None None None) <> now.
Proof. split; [ reflexivity | discriminate ]. Qed.

(** * The further properties on the sample pages *)

(** The round trip for the separator of the supporting acts. *)
Lemma split_join_roundtrip_witness :
  join (u ", ") (split (u ", ") (u "And The Kids, Adult Mom"))
  = u "And The Kids, Adult Mom".
Proof.
  apply (split_join_roundtrip (u ", ") (u "And The Kids, Adult Mom")).
  discriminate.
Defined.

(** X1 for the sample body of the House of Blues. *)
Lemma houseofblues_unwraps_body_witness :
  re_sub_escaped_quote
    (slice_1_m1 ([34%N] ++ escape_quotes Sample.hob_json ++ [34%N]))
  = Sample.hob_json.
Proof.
  apply (houseofblues_unwraps_body Sample.hob_json [34%N] [34%N]);
    reflexivity.
Defined.

(** X2 on the sample page of the Middle East. *)
Lemma re_search_events_capture_witness :
  exists pre body post,
    Sample.mideast_page = pre ++ u "events: [" ++ body ++ [93%N] ++ post
    /\ Sample.mideast_literal = [91%N] ++ body ++ [93%N]
    /\ Forall (fun c => c <> 93%N) body.
Proof.
  apply (re_search_events_capture Sample.mideast_page Sample.mideast_literal).
  vm_compute. reflexivity.
Defined.

(** X3 on a venue fragment of the sample page. *)
Lemma re_search_div_capture_witness :
  exists pre attrs post,
    u "<div class=v>Upstairs</div>"
    = pre ++ u "<div" ++ attrs ++ [62%N] ++ u "Upstairs" ++ post
    /\ Forall (fun c => c <> 60%N /\ c <> 62%N) attrs
    /\ u "Upstairs" <> []
    /\ Forall (fun c => c <> 60%N) (u "Upstairs")
    /\ match post with [] => True | c :: _ => c = 60%N end.
Proof.
  apply (re_search_div_capture (u "<div class=v>Upstairs</div>")
           (u "Upstairs")).
  vm_compute. reflexivity.
Defined.

(** X4 on the first item of the sample page. *)
Lemma middleeast_item_record_witness :
  assoc (u "soldout")
        (Sample.record_of
           (middleeast_item (L := Sample.library) Sample.clock
              Sample.first_item))
  = Some (JBool false).
Proof.
  destruct (middleeast_item_record (L := Sample.library) Sample.clock
              Sample.first_item
              (Sample.record_of
                 (middleeast_item (L := Sample.library) Sample.clock
                    Sample.first_item)))
    as (fragment & g & title & starts & d & id & s & _ & _ & _ & _ & _ & _
        & _ & Hj).
  - vm_compute. reflexivity.
  - rewrite Hj. reflexivity.
Defined.

(** X5 on the first item of the sample page. *)
Lemma middleeast_record_texts_witness :
  exists g bs,
    assoc (u "venue")
          (Sample.record_of
             (middleeast_item (L := Sample.library) Sample.clock
                Sample.first_item))
    = Some (JStr g)
    /\ g <> [] /\ Forall (fun c => c <> 60%N) g
    /\ assoc (u "bands")
             (Sample.record_of
                (middleeast_item (L := Sample.library) Sample.clock
                   Sample.first_item))
       = Some (JArr bs)
    /\ bs <> []
    /\ Forall (fun b => exists x,
                   b = JStr x /\ strip x = x
                   /\ Forall (fun c => is_separator c = false) x) bs.
Proof.
  apply (middleeast_record_texts (L := Sample.library) Sample.clock
           Sample.first_item).
  vm_compute. reflexivity.
Defined.

(** X6 on the sample show, whose button reads "Sold Out". *)
Lemma bowery_soldout_witness :
  assoc (u "soldout")
        (Sample.record_of
           (bowery_event_process (L := Sample.library) Sample.clock
                                 Sample.show_item))
  = Some (JBool true).
Proof.
  rewrite (bowery_soldout (L := Sample.library) Sample.clock Sample.show_item
             (Sample.record_of
                (bowery_event_process (L := Sample.library) Sample.clock
                                      Sample.show_item)));
    vm_compute; reflexivity.
Defined.

(** X7 on the sample show. *)
Lemma bowery_link_venue_start_witness :
  exists loc,
    find Sample.show_item (u "p") [u "list-location"] = Some loc
    /\ assoc (u "venue")
             (Sample.record_of
                (bowery_event_process (L := Sample.library) Sample.clock
                                      Sample.show_item))
       = Some (JStr (match find loc (u "strong") [] with
                     | Some cursor => get_text_strip cursor
                     | None => []
                     end)).
Proof.
  refine (proj1 (proj2 (bowery_link_venue_start (L := Sample.library)
                          Sample.clock Sample.show_item
                          (Sample.record_of
                             (bowery_event_process (L := Sample.library)
                                Sample.clock Sample.show_item)) _))).
  vm_compute. reflexivity.
Defined.

(** X8 on the sample show: three bands. *)
Lemma bowery_bands_witness :
  assoc (u "bands")
        (Sample.record_of
           (bowery_event_process (L := Sample.library) Sample.clock
                                 Sample.show_item))
  = Some (JArr [ JStr (u "Lucy Dacus"); JStr (u "And The Kids");
                 JStr (u "Adult Mom") ]).
Proof.
  destruct (bowery_bands (L := Sample.library) Sample.clock Sample.show_item
              (Sample.record_of
                 (bowery_event_process (L := Sample.library) Sample.clock
                                       Sample.show_item)))
    as (bs & Hbands & Hbs & _).
  - vm_compute. reflexivity.
  - rewrite Hbands, Hbs. vm_compute. reflexivity.
Defined.

(** X9 on a show whose hyperlink has no [href]. *)
Lemma bowery_link_without_href_raises_witness :
  bowery_event_process (L := Sample.library) Sample.clock
                       Sample.show_item_bare_link
  = Raise KeyError.
Proof.
  apply (bowery_link_without_href_raises (L := Sample.library) Sample.clock
           Sample.show_item_bare_link
           (Tag (u "a") [] [] [Text (u "Lucy Dacus")]));
    vm_compute; reflexivity.
Defined.

(** X10 on a show whose supporting acts are not inside a span. *)
Lemma bowery_supporting_without_span_raises_witness :
  exists x,
    bowery_event_process (L := Sample.library) Sample.clock
                         Sample.show_item_without_span = Raise x.
Proof.
  apply (bowery_supporting_without_span_raises (L := Sample.library)
           Sample.clock Sample.show_item_without_span
           (Tag (u "div") [u "info-title"] [] [])
           (Tag (u "div") [u "supporting-acts"] []
              [ Text (u "with And The Kids, Adult Mom") ]));
    vm_compute; reflexivity.
Defined.

(** X11 on the sample web: one show item, one record. *)
Lemma bowery_shows_all_or_nothing_witness :
  length (Sample.returned
            (bowery_shows (L := Sample.library) Sample.clock Sample.earth []))
  = 1%nat.
Proof.
  rewrite (proj2 (bowery_shows_all_or_nothing (L := Sample.library)
                    Sample.clock Sample.earth []
                    (mkresponse 200 Sample.bowery_page (Raise ValueError))
                    eq_refl)
                 (Sample.returned
                    (bowery_shows (L := Sample.library) Sample.clock
                                  Sample.earth [])));
    vm_compute; reflexivity.
Defined.

(** X12 on 29 February 2020. *)
Lemma houseofblues_leap_day_raises_witness :
  houseofblues (L := Sample.library) Sample.clock Sample.leap_day []
  = (Raise ValueError, []).
Proof.
  apply (houseofblues_leap_day_raises (L := Sample.library) Sample.clock
           Sample.leap_day []).
  - unfold valid_datetime; cbn; lia.
  - reflexivity.
  - reflexivity.
Defined.

(** X13 on 15 January 2018: the range 01/15/2018 to 01/15/2019. *)
Lemma houseofblues_request_witness :
  snd (houseofblues (L := Sample.library) Sample.clock Sample.earth [])
  = [ mkrequest houseofblues_url
        (houseofblues_params (u "01/15/2018") (u "01/15/2019")) ].
Proof.
  rewrite (houseofblues_request (L := Sample.library) Sample.clock
             Sample.earth []).
  - vm_compute. reflexivity.
  - exact sample_clock_valid.
  - cbn. lia.
  - left. cbn. discriminate.
Defined.

(** X14 on the sample item of the House of Blues. *)
Lemma houseofblues_item_record_witness :
  houseofblues_item (L := Sample.library) Sample.clock Sample.hob_item []
  = Ok [[ (u "venue", JStr (u "House of Blues Boston"));
          (u "bands", JArr [JStr (u "Lucy Dacus"); JStr (u "And The Kids")]);
          (u "start", JStr (u "2018-04-11T19:00:00+00:00"));
          (u "link",
           JStr (u "http://www.houseofblues.com/boston/EventDetail?tmeventid=347671&offerid=0"));
          (u "soldout", JBool false) ]].
Proof.
  rewrite (houseofblues_item_record (L := Sample.library) Sample.clock
             Sample.hob_item
             (JObj [(u "name", JStr (u "Lucy Dacus"))])
             [JObj [(u "name", JStr (u "And The Kids"))]] []
             (JStr (u "Lucy Dacus")) (JStr (u "House of Blues Boston"))
             (JInt 347671) (JBool false) [u "And The Kids"]
             (u "Lucy Dacus") (u "2018-04-11T19:00:00")
             (u "2018-04-11T19:00:00+00:00")
             (mkdatetime 2018 4 11 19 0 0 0 None));
    try (intros; vm_compute; reflexivity).
Defined.

(** X15 on a month with a music event and a comedy event: one record. *)
Lemma crossroads_parse_music_only_witness :
  length (Sample.returned
            (crossroads_parse (L := Sample.library) Sample.clock
                              Sample.mixed_month, []))
  = 1%nat.
Proof.
  destruct (crossroads_parse_music_only (L := Sample.library) Sample.clock
              Sample.mixed_month
              (Sample.returned
                 (crossroads_parse (L := Sample.library) Sample.clock
                                   Sample.mixed_month, [])))
    as (gs & ess & Hgs & Hess & _ & Hlen).
  - vm_compute. reflexivity.
  - rewrite Hlen. vm_compute in Hgs. inversion Hgs; subst gs.
    vm_compute in Hess. inversion Hess; subst ess.
    vm_compute. reflexivity.
Defined.

(** X16 on the music event of the sample month. *)
Lemma crossroads_event_record_witness :
  assoc (u "link")
        (hd [] (Sample.returned
                  (crossroads_event (L := Sample.library) Sample.clock
                                    Sample.music_event [], [])))
  = Some (JStr (u "http://events.crossroadspresents.com/events/x")).
Proof.
  destruct (crossroads_event_record (L := Sample.library) Sample.clock
              Sample.music_event []
              (Sample.returned
                 (crossroads_event (L := Sample.library) Sample.clock
                                   Sample.music_event [], [])))
    as (v & vt & bands_ & begin & d & permalink & so & s & _ & _ & _ & _ & _
        & Hp & _ & _ & Hout).
  - reflexivity.
  - vm_compute. reflexivity.
  - rewrite Hout. vm_compute in Hp. inversion Hp; subst permalink.
    reflexivity.
Defined.

(** X17 on a month whose second event lacks its permalink. *)
Lemma crossroads_parse_not_isolated_witness :
  exists x,
    crossroads_parse (L := Sample.library) Sample.clock Sample.broken_month
    = Raise x.
Proof.
  apply (crossroads_parse_not_isolated (L := Sample.library) Sample.clock
           Sample.broken_month
           (JArr [ JObj [ (u "events",
                           JArr [ Sample.music_event;
                                  Sample.event_without_permalink ]) ] ])
           (JObj [ (u "events",
                    JArr [ Sample.music_event;
                           Sample.event_without_permalink ]) ])
           (JArr [Sample.music_event; Sample.event_without_permalink])
           Sample.event_without_permalink
           [ JObj [ (u "events",
                     JArr [ Sample.music_event;
                            Sample.event_without_permalink ]) ] ]
           [Sample.music_event; Sample.event_without_permalink]);
    try reflexivity.
  - left. reflexivity.
  - right. left. reflexivity.
Defined.

(** X18 on the sample web with a body that is not JSON for the second
    request: two requests are sent. *)
Lemma monthly_cals_stops_at_first_exception_witness :
  monthly_cals (L := Sample.library) Sample.clock Sample.garbled []
  = (Raise ValueError,
     [] ++ map request_of
             (firstn 2 (monthly_requests (L := Sample.library) Sample.clock
                                         Sample.garbled))).
Proof.
  apply (monthly_cals_stops_at_first_exception (L := Sample.library)
           Sample.clock Sample.garbled 1
           (paradise_url 0,
            crossroads_parser (L := Sample.library) Sample.clock)
           [extracted (L := Sample.library) Sample.clock
                      Sample.mideast_items]
           ValueError []).
  - reflexivity.
  - vm_compute. reflexivity.
  - vm_compute. reflexivity.
Defined.

(** X19 on the web on which nothing is found. *)
Lemma monthly_cals_nothing_found_witness :
  fst (monthly_cals (L := Sample.library) Sample.clock Sample.silent [])
  = Ok []
  /\ length (snd (monthly_cals (L := Sample.library) Sample.clock
                               Sample.silent [])) = 36%nat.
Proof.
  destruct (monthly_cals_nothing_found (L := Sample.library) Sample.clock
              Sample.silent []) as [Hrun Hlen].
  - intros q. exists Sample.not_found. split; [ reflexivity | ].
    cbn. discriminate.
  - rewrite Hrun. cbn [fst snd app]. split; [ reflexivity | ].
    rewrite length_map. exact Hlen.
Defined.

(** X20 on the web on which nothing is found, from January 2018. *)
Lemma monthly_loop_ends_a_year_later_witness :
  fst (match fst (for_inM range12
                    (monthly_cals_body (L := Sample.library) Sample.clock
                                       Sample.silent)
                    ((1, 2018), []) []) with
       | Ok st => st
       | Raise _ => ((0, 0), [])
       end)
  = (1, 2019).
Proof.
  refine (proj1 (monthly_loop_ends_a_year_later (L := Sample.library)
                   Sample.clock Sample.silent 1 2018 [] []
                   (snd (for_inM range12
                           (monthly_cals_body (L := Sample.library)
                              Sample.clock Sample.silent)
                           ((1, 2018), []) []))
                   _ _ _)).
  - lia.
  - vm_compute. reflexivity.
Defined.
